(** * The movie ETL pipeline of [dags/utils/process_movies_data.py]

    A shallow embedding of the transformation functions of the pipeline
    together with the configuration of [dags/utils/settings.py], and the
    properties of the specification that can be checked against them.

    Conventions of the embedding.
    - A pandas [DataFrame] is the list of its rows, in row order; a row is
      a record with one field per column, named after the column.
    - A cell that pandas reads as missing ([\N] in the sources, [NaN] in
      the frame) is [None]; a column that cannot hold a missing value at
      that point of the pipeline has a plain type.
    - Numeric measures are exact rationals ([Q]) and integer counts are
      unbounded integers ([Z]).  pandas computes them in [float64] and
      [int64]: the rounding error of a floating-point mean, the
      wrap-around of an [int64] sum and the digits that [round] sees of
      a binary fraction are outside the model.  The properties below
      that speak of these values hold of the exact quantities; the
      properties on keys, counts of rows, names and exceptions do not
      depend on them.
    - The four source tables are given as read: a failure of
      [read_csv] or [to_csv] (network, parsing, file system) is outside
      the model, and the only exceptions represented are those raised
      by the transformations themselves.
    - The pandas primitives used by the source ([merge], [explode],
      [groupby(...).agg], [mode], [nunique], ...) are defined here after
      the behaviour pandas documents for them; each definition says which
      call of the source it stands for. *)

From Stdlib Require Import Ascii QArith Qround Qabs Qfield Lqa.
From Stdlib Require String.
From stdpp Require Import base option list sorting strings gmap.

Local Open Scope Z_scope.

(** ** [settings.py] *)

Definition TITLE_TYPE : string := "movie".
Definition TITLE_BASICS_YEAR_FROM : Z := 2015.
Definition TITLE_BASICS_YEAR_TO : Z := 2020.
Definition OUTPUT_FILE_PATH : string := "/home/airflow/resultados.csv".

(** ** Data model *)

(** A row of [title_basics_df] as read from the source: the five columns
    the pipeline looks at.  Every column but the id may be missing. *)
Module TitleBasics.
Record row : Type := Row {
  tconst : string;
  titleType : option string;
  startYear : option Z;
  genres : option string;
  runtimeMinutes : option Q
}.
End TitleBasics.

(** A row of the cleaned title table, [TITLE_BASICS_USED_COLUMNS]:
    [startYear] is present on every row that survives the cleaning. *)
Module Clean.
Record row : Type := Row {
  tconst : string;
  startYear : Z;
  genres : option string;
  runtimeMinutes : option Q
}.
End Clean.

(** ** pandas primitives on columns *)

(** [Series.notna()] on one cell. *)
Definition notna {A} (x : option A) : bool :=
  match x with Some _ => true | None => false end.

(** [Series.between(left, right, inclusive=True)] on one cell: a missing
    value is never between two bounds. *)
Definition between (x : option Z) (left right : Z) : bool :=
  match x with
  | Some v => (left <=? v) && (v <=? right)
  | None => false
  end.

(** [df.col == value] on one cell: a missing value equals nothing. *)
Definition cell_eqb (x : option string) (v : string) : bool :=
  bool_decide (x = Some v).

(** ** [process_title_basics_df] *)

Definition movie_mask (r : TitleBasics.row) : bool :=
  cell_eqb (TitleBasics.titleType r) TITLE_TYPE.

Definition date_mask (r : TitleBasics.row) : bool :=
  between (TitleBasics.startYear r) TITLE_BASICS_YEAR_FROM TITLE_BASICS_YEAR_TO.

(** [df[...][TITLE_BASICS_USED_COLUMNS]] on one row.  The year column of
    the result holds no missing value, so a row without year has no
    projection; [process_title_basics_df] only projects rows that passed
    [df.startYear.notna()]. *)
Definition used_columns (r : TitleBasics.row) : option Clean.row :=
  match TitleBasics.startYear r with
  | Some y =>
      Some {| Clean.tconst := TitleBasics.tconst r;
              Clean.startYear := y;
              Clean.genres := TitleBasics.genres r;
              Clean.runtimeMinutes := TitleBasics.runtimeMinutes r |}
  | None => None
  end.

Definition process_title_basics_df (title_basics_df : list TitleBasics.row)
  : list Clean.row :=
  let df := title_basics_df in
  let df := filter (λ r, notna (TitleBasics.startYear r)) df in
  let df := filter (λ r, movie_mask r && date_mask r) df in
  omap used_columns df.

(** The rows the specification says are kept. *)
Definition kept (r : TitleBasics.row) : Prop :=
  ∃ y, TitleBasics.startYear r = Some y
       ∧ TitleBasics.titleType r = Some "movie"
       ∧ 2015 ≤ y ≤ 2020.

Global Instance kept_dec r : Decision (kept r).
Proof.
  unfold kept. destruct (TitleBasics.startYear r) as [y|].
  - destruct (decide (TitleBasics.titleType r = Some "movie"
                      ∧ 2015 ≤ y ≤ 2020)) as [H|H].
    + left. exists y. tauto.
    + right. intros (y' & Hy & Ht). injection Hy as <-. tauto.
  - right. intros (y' & Hy & _). discriminate.
Defined.

(** ** More of the data model *)

(** A row of [title_ratings_df]. *)
Module TitleRatings.
Record row : Type := Row {
  tconst : string;
  averageRating : option Q;
  numVotes : option Z
}.
End TitleRatings.

(** A row of [titles_data] in [get_title_ratings]; [G] is what a cell of
    the genres column holds: the list of genres once the column is split,
    one genre once it is exploded. *)
Module Titles.
Record row (G : Type) : Type := Row {
  tconst : string;
  startYear : Z;
  genres : G;
  runtimeMinutes : option Q;
  averageRating : option Q;
  numVotes : option Z
}.
Arguments Row {G} _ _ _ _ _ _.
Arguments tconst {G} _.
Arguments startYear {G} _.
Arguments genres {G} _.
Arguments runtimeMinutes {G} _.
Arguments averageRating {G} _.
Arguments numVotes {G} _.

Definition set_genres {G H} (r : row G) (g : H) : row H :=
  Row (tconst r) (startYear r) g (runtimeMinutes r) (averageRating r)
    (numVotes r).

Definition set_runtimeMinutes {G} (r : row G) (m : option Q) : row G :=
  Row (tconst r) (startYear r) (genres r) m (averageRating r) (numVotes r).
End Titles.

(** The group key [RESUME_GROUPED_BY]: [(startYear, genres)]. *)
Notation GroupKey := (Z * string)%type (only parsing).

(** The three measures of [RESUME_AGG_FUNCTIONS_DICT], in its order; the
    result of [get_year_genre_resume] is indexed by [GroupKey]. *)
Module Resume.
Record row : Type := Row {
  runtimeMinutes : option Q;
  averageRating : option Q;
  numVotes : option Z
}.
End Resume.

(** ** pandas primitives on frames *)

(** [str.split(sep)] for a one-character separator: the pieces between
    the separators, of which there is always at least one. *)
Fixpoint split (sep : ascii) (s : string) : list string :=
  match s with
  | EmptyString => [EmptyString]
  | String c s' =>
      if decide (c = sep) then EmptyString :: split sep s'
      else match split sep s' with
           | [] => [String c EmptyString]
           | piece :: pieces => String c piece :: pieces
           end
  end.

Definition split_comma : string → list string := split ","%char.

(** [left.merge(right, how="left", on=key)]: the rows of [left] in their
    order, each paired with every row of [right] of the same key, in the
    order of [right]; a row of [left] without partner is kept once, with
    the columns of [right] missing. *)
Definition merge_left {K L R} `{EqDecision K} (key_l : L → K) (key_r : R → K)
    (left : list L) (right : list R) : list (L * option R) :=
  left ≫= λ l,
    match filter (λ r, key_r r = key_l l) right with
    | [] => [(l, None)]
    | partners => (λ r, (l, Some r)) <$> partners
    end.

(** [df.explode(col)]: each row is repeated once per element of the list
    in its cell [col], in order, the other columns copied.  (pandas turns
    an empty list into one row with a missing cell; the lists exploded
    here come from [split] and are never empty, see [split_nonempty].) *)
Definition explode {A B C} (col : A → list B) (set_col : A → B → C)
    (df : list A) : list C :=
  df ≫= λ r, set_col r <$> col r.

(** [Series.astype(float)] on a numeric cell: the measures of the model
    are rationals already. *)
Definition astype_float (x : option Q) : option Q := x.

(** ** [get_title_ratings] *)

(** The rating columns of a merged row. *)
Definition merged_averageRating (j : Clean.row * option TitleRatings.row)
  : option Q := j.2 ≫= TitleRatings.averageRating.
Definition merged_numVotes (j : Clean.row * option TitleRatings.row)
  : option Z := j.2 ≫= TitleRatings.numVotes.

(** [titles_data["genres"].apply(lambda x: x.split(","))] on one row. *)
Definition split_genres (j : Clean.row * option TitleRatings.row)
  : option (Titles.row (list string)) :=
  g ← Clean.genres j.1;
  Some (Titles.Row (Clean.tconst j.1) (Clean.startYear j.1) (split_comma g)
          (Clean.runtimeMinutes j.1) (merged_averageRating j)
          (merged_numVotes j)).

Definition get_title_ratings (clean_title_basics_df : list Clean.row)
    (title_ratings_df : list TitleRatings.row) : list (Titles.row string) :=
  let title_data := clean_title_basics_df in
  let title_ratings := title_ratings_df in
  let titles_data :=
    merge_left Clean.tconst TitleRatings.tconst title_data title_ratings in
  let titles_data := filter (λ j, notna (Clean.genres j.1)) titles_data in
  let titles_data := omap split_genres titles_data in
  let titles_data := explode Titles.genres Titles.set_genres titles_data in
  (λ r, Titles.set_runtimeMinutes r (astype_float (Titles.runtimeMinutes r)))
    <$> titles_data.

(** ** [groupby(...).agg(...)] *)

Section groupby.
Context {K A : Type} `{EqDecision K}.
Context (key : A → K) (key_le : relation K) `{!RelDecision key_le}.

(** The row [r] of key [k] joins its group, or opens a new group after
    the groups seen so far. *)
Fixpoint add_to_group (k : K) (r : A) (groups : list (K * list A))
  : list (K * list A) :=
  match groups with
  | [] => [(k, [r])]
  | (k', rs) :: groups' =>
      if decide (k = k') then (k', rs ++ [r]) :: groups'
      else (k', rs) :: add_to_group k r groups'
  end.

(** The groups in order of first appearance, the rows of a group in
    row order. *)
Definition factorize (df : list A) : list (K * list A) :=
  foldl (λ groups r, add_to_group (key r) r groups) [] df.

(** The order of the groups is the order of their keys. *)
Definition by_key {B} (g1 g2 : K * B) : Prop := key_le g1.1 g2.1.

Global Instance by_key_dec {B} : RelDecision (@by_key B).
Proof. intros g1 g2. unfold by_key. apply _. Defined.

(** [df.groupby(cols)]: the groups sorted by key ([sort=True] is the
    default). *)
Definition groupby (df : list A) : list (K * list A) :=
  merge_sort by_key (factorize df).

(** [df.groupby(cols).agg(f)]: one row per group, indexed by the key. *)
Definition groupby_agg {B} (f : list A → B) (df : list A) : list (K * B) :=
  prod_map id f <$> groupby df.
(** The groups of a frame: one per key of the frame, holding the rows
    of that key in row order. *)
Definition groups_of (df : list A) (groups : list (K * list A)) : Prop :=
  NoDup groups.*1
  ∧ ∀ k rs, (k, rs) ∈ groups ↔
      k ∈ key <$> df ∧ rs = filter (λ r, key r = k) df.
End groupby.

(** Order of the group keys: by year, then by genre. *)
Definition GroupKey_le (k1 k2 : GroupKey) : Prop :=
  k1.1 < k2.1 ∨ (k1.1 = k2.1 ∧ String.le k1.2 k2.2).

Global Instance GroupKey_le_dec : RelDecision GroupKey_le.
Proof. intros k1 k2. unfold GroupKey_le. apply _. Defined.

Global Instance GroupKey_le_po : PartialOrder GroupKey_le.
Proof.
  unfold GroupKey_le. split; [split|].
  - intros [y g]. right. split; [done|]. simpl. reflexivity.
  - intros [y1 g1] [y2 g2] [y3 g3]. simpl.
    intros [H1|[-> H1]] [H2|[-> H2]]; [left; lia..|].
    right. split; [done|]. by etrans.
  - intros [y1 g1] [y2 g2]. simpl.
    intros [H1|[-> H1]] [H2|[H2' H2]]; [lia..|].
    f_equal. by apply (anti_symm String.le).
Qed.

Global Instance GroupKey_le_total : Total GroupKey_le.
Proof.
  intros [y1 g1] [y2 g2]. unfold GroupKey_le. simpl.
  destruct (Z.lt_trichotomy y1 y2) as [?|[->|?]]; [by left; left| |by right; left].
  destruct (total String.le g1 g2); [left|right]; right; done.
Qed.

(** [Series.dropna()]. *)
Definition dropna {A} (xs : list (option A)) : list A := omap id xs.

(** The aggregation ["mean"]: the arithmetic mean of the values present,
    missing when there is none.  The mean is the exact quotient; pandas
    returns the [float64] nearest to what its summation computes, which
    can differ from it in the last digits. *)
Definition Qsum (xs : list Q) : Q := foldr Qplus 0%Q xs.

Definition agg_mean (xs : list (option Q)) : option Q :=
  match dropna xs with
  | [] => None
  | vs => Some (Qred (Qsum vs / inject_Z (Z.of_nat (length vs))))
  end.

(** The aggregation ["sum"]: the sum of the values present ([min_count]
    is 0 by default, so the sum of no value is 0).  The sum is the exact
    integer; pandas accumulates in 64 bits, so the two agree as long as
    the sum of a group stays within that range. *)
Definition agg_sum (xs : list (option Z)) : option Z :=
  Some (foldr Z.add 0 (dropna xs)).

(** ** [get_year_genre_resume] *)

Definition resume_key {G} (r : Titles.row G) : Z * G :=
  (Titles.startYear r, Titles.genres r).

(** [RESUME_AGG_FUNCTIONS_DICT] applied to the rows of one group. *)
Definition RESUME_AGG_FUNCTIONS (rows : list (Titles.row string)) : Resume.row :=
  {| Resume.runtimeMinutes := agg_mean (Titles.runtimeMinutes <$> rows);
     Resume.averageRating := agg_mean (Titles.averageRating <$> rows);
     Resume.numVotes := agg_sum (Titles.numVotes <$> rows) |}.

Definition get_year_genre_resume (titles_data_df : list (Titles.row string))
  : list (GroupKey * Resume.row) :=
  let df := titles_data_df in
  groupby_agg resume_key GroupKey_le RESUME_AGG_FUNCTIONS df.

(** ** [get_id2name_dict] *)

(** A row of [name_basics_df]. *)
Module NameBasics.
Record row : Type := Row {
  nconst : string;
  primaryName : string
}.
End NameBasics.

(** [name_basics_df[["nconst", "primaryName"]].set_index("nconst")
    .to_dict()["primaryName"]]: when an id occurs twice, the later row
    overwrites the earlier one. *)
Definition get_id2name_dict (name_basics_df : list NameBasics.row)
  : gmap string string :=
  foldl (λ d r, <[NameBasics.nconst r := NameBasics.primaryName r]> d)
    ∅ name_basics_df.

(** ** Exceptions *)

Inductive exn : Type :=
  | KeyError (key : string)
  | ValueError (msg : string).

Inductive result (A : Type) : Type :=
  | Ok (a : A)
  | Raise (e : exn).
Arguments Ok {A} _.
Arguments Raise {A} _.

Global Instance result_ret : MRet result := @Ok.
Global Instance result_bind : MBind result := λ A B f m,
  match m with
  | Ok a => f a
  | Raise e => Raise e
  end.
Global Instance result_fmap : FMap result := λ A B f m,
  match m with
  | Ok a => Ok (f a)
  | Raise e => Raise e
  end.

(** [d[k]] on a Python dict. *)
Definition getitem (d : gmap string string) (k : string) : result string :=
  match d !! k with
  | Some v => Ok v
  | None => Raise (KeyError k)
  end.

(** ** [director_id2name] *)

(** What [groupby(...).agg(lambda x: x.mode())] leaves in a cell: the id
    itself when the mode is one id, a [numpy.ndarray] of the ids
    otherwise.  [director_id2name] tells them apart by [type(ids)]. *)
Inductive mode_cell : Type :=
  | Scalar (id : string)
  | NdArray (ids : list string).

(** [s.endswith(suffix)]. *)
Definition endswith (s suffix : string) : bool :=
  bool_decide (String.list_ascii_of_string suffix
                 `suffix_of` String.list_ascii_of_string s).

(** [s[:-n]]. *)
Definition drop_last (n : nat) (s : string) : string :=
  String.substring 0 (String.length s - n) s.

(** The loop [for id in ids: names += f"{id2name_dict[id]}; "]. *)
Fixpoint append_names (id2name_dict : gmap string string) (ids : list string)
    (names : string) : result string :=
  match ids with
  | [] => Ok names
  | id :: ids' =>
      name ← getitem id2name_dict id;
      append_names id2name_dict ids' (names +:+ name +:+ "; ")
  end.

Definition director_id2name (ids : mode_cell)
    (id2name_dict : gmap string string) : result string :=
  let names := "" in
  match ids with
  | NdArray ids =>
      names ← append_names id2name_dict ids names;
      Ok (if endswith names "; " then drop_last 2 names else names)
  | Scalar ids =>
      name ← getitem id2name_dict ids;
      Ok (names +:+ name)
  end.

(** ** [get_crew_data_by_group] *)

(** A row of [title_crew_df]. *)
Module TitleCrew.
Record row : Type := Row {
  tconst : string;
  directors : option string;
  writers : option string
}.
End TitleCrew.

(** A row of [df] in [get_crew_data_by_group] once cut down to
    [TITLE_CREW_USED_COLUMNS]; [G] and [D] are what a cell of the genres
    and of the directors column holds. *)
Module Crew.
Record row (G D : Type) : Type := Row {
  startYear : Z;
  genres : G;
  directors : D;
  writers : option string
}.
Arguments Row {G D} _ _ _ _.
Arguments startYear {G D} _.
Arguments genres {G D} _.
Arguments directors {G D} _.
Arguments writers {G D} _.

Definition set_genres {G H D} (r : row G D) (g : H) : row H D :=
  Row (startYear r) g (directors r) (writers r).

Definition set_directors {G D E} (r : row G D) (d : E) : row G E :=
  Row (startYear r) (genres r) d (writers r).
End Crew.

(** The crew columns of a merged row. *)
Definition merged_directors (j : Clean.row * option TitleCrew.row)
  : option string := j.2 ≫= TitleCrew.directors.
Definition merged_writers (j : Clean.row * option TitleCrew.row)
  : option string := j.2 ≫= TitleCrew.writers.

(** [df[TITLE_CREW_USED_COLUMNS]] on one row. *)
Definition crew_used_columns (j : Clean.row * option TitleCrew.row)
  : Crew.row (option string) (option string) :=
  Crew.Row (Clean.startYear j.1) (Clean.genres j.1) (merged_directors j)
    (merged_writers j).

(** The two [apply(lambda x: x.split(","))] on one row. *)
Definition split_genres_directors (r : Crew.row (option string) (option string))
  : option (Crew.row (list string) (list string)) :=
  g ← Crew.genres r;
  d ← Crew.directors r;
  Some (Crew.Row (Crew.startYear r) (split_comma g) (split_comma d)
          (Crew.writers r)).

(** [df] after the merge and the removal of the rows without genres or
    without directors. *)
Definition crew_merged (clean_title_basics_df : list Clean.row)
    (title_crew_df : list TitleCrew.row)
  : list (Clean.row * option TitleCrew.row) :=
  let df :=
    merge_left Clean.tconst TitleCrew.tconst clean_title_basics_df
      title_crew_df in
  let df := filter (λ j, notna (Clean.genres j.1)) df in
  let df := filter (λ j, notna (merged_directors j)) df in
  df.

(** [df] when the grouping starts: cut down to the used columns, split
    and exploded, genres first. *)
Definition crew_exploded (clean_title_basics_df : list Clean.row)
    (title_crew_df : list TitleCrew.row) : list (Crew.row string string) :=
  let df := crew_merged clean_title_basics_df title_crew_df in
  let df := crew_used_columns <$> df in
  let df := omap split_genres_directors df in
  let df := explode Crew.genres Crew.set_genres df in
  let df := explode Crew.directors Crew.set_directors df in
  df.

(** The aggregation ["nunique"]: the number of distinct values present. *)
Definition nunique `{EqDecision A} (xs : list (option A)) : nat :=
  length (remove_dups (dropna xs)).

(** [Series.mode()]: the values that occur most often, in ascending
    order. *)
Definition occurrences (x : string) (xs : list string) : nat :=
  length (filter (x =.) xs).

Definition mode (xs : list string) : list string :=
  let uniques := remove_dups xs in
  let top := max_list (flip occurrences xs <$> uniques) in
  merge_sort String.le (filter (λ x, occurrences x xs = top) uniques).

(** What [agg] stores for the result of [lambda x: x.mode()]: a result of
    one element is unpacked, a longer one is kept as an array. *)
Definition agg_cell (modes : list string) : mode_cell :=
  match modes with
  | [id] => Scalar id
  | ids => NdArray ids
  end.

Definition crew_key {G D} (r : Crew.row G D) : Z * G :=
  (Crew.startYear r, Crew.genres r).

(** The three aggregations of [get_crew_data_by_group], on the rows of
    one group. *)
Definition agg_n_directors (rows : list (Crew.row string string)) : nat :=
  nunique (Some ∘ Crew.directors <$> rows).
Definition agg_top_directors (rows : list (Crew.row string string))
  : mode_cell := agg_cell (mode (Crew.directors <$> rows)).
Definition agg_n_writers (rows : list (Crew.row string string)) : nat :=
  nunique (Crew.writers <$> rows).

Definition get_crew_data_by_group (clean_title_basics_df : list Clean.row)
    (title_crew_df : list TitleCrew.row)
    (director_id2name_dict : gmap string string)
  : result (list (GroupKey * nat) * list (GroupKey * string)
            * list (GroupKey * nat)) :=
  let df := crew_exploded clean_title_basics_df title_crew_df in
  let n_directors := groupby_agg crew_key GroupKey_le agg_n_directors df in
  let top_directors := groupby_agg crew_key GroupKey_le agg_top_directors df in
  let n_writers := groupby_agg crew_key GroupKey_le agg_n_writers df in
  top_directors ←
    mapM (λ g, pair g.1 <$> director_id2name g.2 director_id2name_dict)
      top_directors;
  Ok (n_directors, top_directors, n_writers).

(** ** [run_pipeline] *)

(** A row of [output] once the index is reset and the columns renamed,
    before the casts. *)
Module Merged.
Record row : Type := Row {
  startYear : Z;
  genres : string;
  runtimeMinutes : option Q;
  averageRating : option Q;
  numVotes : option Z;
  numWriters : option nat;
  numDirectors : option nat;
  topDirectors : option string
}.
End Merged.

(** A row of the file written at [OUTPUT_FILE_PATH]. *)
Module Output.
Record row : Type := Row {
  startYear : Z;
  genres : string;
  runtimeMinutes : option Q;
  averageRating : option Q;
  numVotes : Z;
  numWriters : Z;
  numDirectors : Z;
  topDirectors : option string
}.
End Output.

(** [left.merge(right, how="left", left_index=True, right_index=True)]. *)
Definition merge_index {K L R} `{EqDecision K} (left : list (K * L))
    (right : list (K * R)) : list (K * (L * option R)) :=
  (λ j : (K * L) * option (K * R), (j.1.1, (j.1.2, snd <$> j.2)))
    <$> merge_left fst fst left right.

(** [output.reset_index()] followed by the assignment of the eight column
    names, on one row. *)
Definition rename_columns
    (r : GroupKey * (Resume.row * option nat * option nat * option string))
  : Merged.row :=
  let '(key, (resume, writers, directors_x, directors_y)) := r in
  {| Merged.startYear := key.1;
     Merged.genres := key.2;
     Merged.runtimeMinutes := Resume.runtimeMinutes resume;
     Merged.averageRating := Resume.averageRating resume;
     Merged.numVotes := Resume.numVotes resume;
     Merged.numWriters := writers;
     Merged.numDirectors := directors_x;
     Merged.topDirectors := directors_y |}.

(** [round(x, ndigits)] on an exact value: to the nearest multiple of
    [10^-ndigits], a tie to the even one (lemma [round_nearest]).
    Python rounds the [float64] it is given, whose exact value need not
    be the decimal fraction it prints as, so a value that is a tie here
    may go the other way there. *)
Definition round_half_even (q : Q) : Z :=
  let f := Qfloor q in
  match Qcompare (q - inject_Z f) (1 # 2) with
  | Lt => f
  | Gt => f + 1
  | Eq => if Z.even f then f else f + 1
  end.

Definition round (x : Q) (ndigits : nat) : Q :=
  let scale := inject_Z (10 ^ Z.of_nat ndigits) in
  Qred (inject_Z (round_half_even (x * scale)) / scale).

(** [Series.astype(int)] on one cell: a missing value has no integer. *)
Definition astype_int (x : option Z) : result Z :=
  match x with
  | Some v => Ok v
  | None => Raise (ValueError "Cannot convert non-finite values (NA or inf) to integer")
  end.

(** [Series.fillna(v)] on one cell. *)
Definition fillna {A} (v : A) (x : option A) : A := default v x.

(** The rounding and the four casts, on one row. *)
Definition cast_columns (r : Merged.row) : result Output.row :=
  let runtimeMinutes := (λ x, round x 2) <$> Merged.runtimeMinutes r in
  let averageRating := (λ x, round x 2) <$> Merged.averageRating r in
  numVotes ← astype_int (Merged.numVotes r);
  numDirectors ← astype_int (Some (Z.of_nat (fillna 0%nat (Merged.numDirectors r))));
  startYear ← astype_int (Some (Merged.startYear r));
  numWriters ← astype_int (Some numVotes);
  Ok {| Output.startYear := startYear;
        Output.genres := Merged.genres r;
        Output.runtimeMinutes := runtimeMinutes;
        Output.averageRating := averageRating;
        Output.numVotes := numVotes;
        Output.numWriters := numWriters;
        Output.numDirectors := numDirectors;
        Output.topDirectors := Merged.topDirectors r |}.

(** The four tables behind [DATASET_URLS]. *)
Record datasets : Type := Datasets {
  NAME_BASICS : list NameBasics.row;
  TITLE_BASICS : list TitleBasics.row;
  TITLE_RATINGS : list TitleRatings.row;
  TITLE_CREW : list TitleCrew.row
}.

(** The files on disk: a file holds the rows written to it, under the
    header of the eight column names. *)
Definition io (A : Type) : Type :=
  gmap string (list Output.row) → result A * gmap string (list Output.row).

Global Instance io_ret : MRet io := λ A a disk, (Ok a, disk).
Global Instance io_bind : MBind io := λ A B f m disk,
  match m disk with
  | (Ok a, disk') => f a disk'
  | (Raise e, disk') => (Raise e, disk')
  end.

(** A computation without effect on the files; its exception, if any,
    is raised. *)
Definition lift {A} (m : result A) : io A := λ disk, (m, disk).

(** [read_csv(url, sep="\t", na_values="\\N")]: the table behind the
    url.  Reading always succeeds here: a download or a parse that fails
    is not represented. *)
Definition read_csv {A} (table : list A) : io (list A) := mret table.

(** [output.to_csv(path, index=None)]: the file is created or replaced.
    Writing always succeeds here: a path that cannot be written is not
    represented. *)
Definition to_csv (path : string) (output : list Output.row) : io unit :=
  λ disk, (Ok (), <[path := output]> disk).

Definition run_pipeline (DATASET_URLS : datasets) : io unit :=
  name_basics_df ← read_csv (NAME_BASICS DATASET_URLS);
  let director_id2name_dict := get_id2name_dict name_basics_df in
  title_basics_df ← read_csv (TITLE_BASICS DATASET_URLS);
  let clean_title_basics := process_title_basics_df title_basics_df in
  title_ratings_df ← read_csv (TITLE_RATINGS DATASET_URLS);
  let clean_title_ratings :=
    get_title_ratings clean_title_basics title_ratings_df in
  let year_genre_resume := get_year_genre_resume clean_title_ratings in
  title_crew_df ← read_csv (TITLE_CREW DATASET_URLS);
  '(n_directors, top_directors, n_writers) ←
    lift (get_crew_data_by_group clean_title_basics title_crew_df
            director_id2name_dict);
  let output :=
    merge_index
      (merge_index (merge_index year_genre_resume n_writers) n_directors)
      top_directors in
  let output := rename_columns <$> output in
  output ← lift (mapM cast_columns output);
  to_csv OUTPUT_FILE_PATH output.

(** ** Definitions used to state the properties *)

(** The rows that one merged row becomes: one per pair of a genre and a
    director of the row, the genres in the outer loop. *)
Definition crew_rows_of (j : Clean.row * option TitleCrew.row)
  : list (Crew.row string string) :=
  match Clean.genres j.1, merged_directors j with
  | Some g, Some d =>
      genre ← split_comma g;
      director ← split_comma d;
      [Crew.Row (Clean.startYear j.1) genre director (merged_writers j)]
  | _, _ => []
  end.

(** What the loop of [director_id2name] appends for a list of names. *)
Definition names_with_separators (names : list string) : string :=
  foldr (λ name rest, name +:+ "; " +:+ rest) "" names.

(** The ids held by a cell of the top-directors column. *)
Definition mode_ids (cell : mode_cell) : list string :=
  match cell with
  | Scalar id => [id]
  | NdArray ids => ids
  end.

(** A crew row without its writers. *)
Definition forget_writers (r : TitleCrew.row) : TitleCrew.row :=
  TitleCrew.Row (TitleCrew.tconst r) (TitleCrew.directors r) None.

Definition erase_writers {G D} (r : Crew.row G D) : Crew.row G D :=
  Crew.Row (Crew.startYear r) (Crew.genres r) (Crew.directors r) None.

(** The rows of the file do not look at the column merged from
    [n_writers]. *)
Definition cast_without_writers
    (r : GroupKey * (Resume.row * option nat * option string))
  : result Output.row :=
  cast_columns (rename_columns (r.1, (r.2.1.1, None, r.2.1.2, r.2.2))).


(** The strict order of the group keys. *)
Definition GroupKey_lt (k1 k2 : GroupKey) : Prop :=
  GroupKey_le k1 k2 ∧ k1 ≠ k2.

(** The number of separators in a string. *)
Definition count_char (c : ascii) (s : string) : nat :=
  length (filter (c =.) (String.list_ascii_of_string s)).

(** The value of a key in a table indexed by unique keys. *)
Definition lookup_index {V} (k : GroupKey) (table : list (GroupKey * V))
  : option V :=
  snd <$> head (filter (λ r, r.1 = k) table).

(** The row of the file for one group of the resume, given the tables of
    the crew aggregation. *)
Definition output_row (n_directors : list (GroupKey * nat))
    (top_directors : list (GroupKey * string))
    (g : GroupKey * Resume.row) : Output.row :=
  {| Output.startYear := g.1.1;
     Output.genres := g.1.2;
     Output.runtimeMinutes := (λ x, round x 2) <$> Resume.runtimeMinutes g.2;
     Output.averageRating := (λ x, round x 2) <$> Resume.averageRating g.2;
     Output.numVotes := default 0 (Resume.numVotes g.2);
     Output.numWriters := default 0 (Resume.numVotes g.2);
     Output.numDirectors := Z.of_nat (default 0%nat (lookup_index g.1 n_directors));
     Output.topDirectors := lookup_index g.1 top_directors |}.

(** The rows that one merged row of [get_title_ratings] becomes. *)
Definition titles_rows_of (j : Clean.row * option TitleRatings.row)
  : list (Titles.row string) :=
  match Clean.genres j.1 with
  | Some g =>
      (λ genre,
         Titles.Row (Clean.tconst j.1) (Clean.startYear j.1) genre
           (Clean.runtimeMinutes j.1) (merged_averageRating j)
           (merged_numVotes j))
      <$> split_comma g
  | None => []
  end.

(** The key of a row of the file. *)
Definition output_key (r : Output.row) : GroupKey :=
  (Output.startYear r, Output.genres r).
(** * Properties *)

Lemma masks_kept r :
  notna (TitleBasics.startYear r) ∧ movie_mask r && date_mask r ↔ kept r.
Proof.
  unfold kept, movie_mask, date_mask, cell_eqb, between, TITLE_TYPE,
    TITLE_BASICS_YEAR_FROM, TITLE_BASICS_YEAR_TO.
  destruct (TitleBasics.startYear r) as [y|]; simpl.
  - rewrite andb_True, bool_decide_spec, andb_True, !Is_true_true, !Z.leb_le.
    split.
    + intros (_ & Ht & Hy). exists y. tauto.
    + intros (y' & Hy & Ht & Hr). injection Hy as <-. tauto.
  - split; [tauto | intros (y' & Hy & _); discriminate].
Qed.

(** C1.  [process_title_basics_df] keeps, in their order and with their
    multiplicity, exactly the rows with a year, of type "movie" and with
    the year in the inclusive range from 2015 to 2020, each projected to
    the four columns tconst, startYear, genres and runtimeMinutes; so a row
    is in the result exactly when it is the projection of such a row, and
    a movie of 2015 or of 2020, wherever it stands in the table, is kept. *)
Theorem process_title_basics_df_spec (title_basics_df : list TitleBasics.row) :
  process_title_basics_df title_basics_df
    = omap used_columns (filter kept title_basics_df)
  ∧ (∀ c, c ∈ process_title_basics_df title_basics_df ↔
       ∃ r, r ∈ title_basics_df
            ∧ TitleBasics.titleType r = Some "movie"
            ∧ TitleBasics.startYear r = Some (Clean.startYear c)
            ∧ 2015 ≤ Clean.startYear c ≤ 2020
            ∧ c = Clean.Row (TitleBasics.tconst r) (Clean.startYear c)
                    (TitleBasics.genres r) (TitleBasics.runtimeMinutes r))
  ∧ (∀ t g m after,
       Clean.Row t 2015 g m ∈ process_title_basics_df
         (title_basics_df
            ++ TitleBasics.Row t (Some "movie") (Some 2015) g m :: after)
       ∧ Clean.Row t 2020 g m ∈ process_title_basics_df
           (title_basics_df
              ++ TitleBasics.Row t (Some "movie") (Some 2020) g m :: after)).
Proof.
  assert (Heq : ∀ df, process_title_basics_df df
                      = omap used_columns (filter kept df)).
  { intros df. unfold process_title_basics_df. f_equal.
    rewrite list_filter_filter. apply list_filter_iff.
    intros r. rewrite <- masks_kept. tauto. }
  assert (Hin : ∀ df c, c ∈ process_title_basics_df df ↔
       ∃ r, r ∈ df
            ∧ TitleBasics.titleType r = Some "movie"
            ∧ TitleBasics.startYear r = Some (Clean.startYear c)
            ∧ 2015 ≤ Clean.startYear c ≤ 2020
            ∧ c = Clean.Row (TitleBasics.tconst r) (Clean.startYear c)
                    (TitleBasics.genres r) (TitleBasics.runtimeMinutes r)).
  { intros df c. rewrite Heq, list_elem_of_omap. split.
    - intros (r & Hr & Hc).
      apply list_elem_of_filter in Hr as [(y & Hy & Ht & Hb) Hr].
      unfold used_columns in Hc. rewrite Hy in Hc. injection Hc as <-. simpl.
      exists r. auto.
    - intros (r & Hr & Ht & Hy & Hb & Hc). exists r. split.
      + apply list_elem_of_filter. split; [|done].
        exists (Clean.startYear c). auto.
      + unfold used_columns. rewrite Hy. f_equal. symmetry. exact Hc. }
  split; [apply Heq|]. split; [apply Hin|].
  intros t g m after. split; apply Hin; eexists; (split;
    [apply elem_of_app; right; apply list_elem_of_here|]); simpl;
    repeat split; auto; lia.
Qed.


(** ** [split] *)

Lemma split_nonempty sep s : split sep s ≠ [].
Proof.
  destruct s as [|c s]; simpl; [done|].
  destruct (decide (c = sep)); [done|]. by destruct (split sep s).
Qed.

Lemma split_length_pos sep s : (0 < length (split sep s))%nat.
Proof.
  pose proof (split_nonempty sep s). destruct (split sep s); simpl; [done|lia].
Qed.

(** ** [groupby] *)

Section groupby_facts.
Context {K A : Type} `{EqDecision K}.
Context (key : A → K) (key_le : relation K) `{!RelDecision key_le}.

Lemma add_to_group_keys k r (groups : list (K * list A)) :
  (add_to_group k r groups).*1
  = if decide (k ∈ groups.*1) then groups.*1 else groups.*1 ++ [k].
Proof.
  induction groups as [|[k' rs] groups IH]; [done|].
  cbn [add_to_group].
  destruct (decide (k = k')) as [->|Hne]; rewrite !fmap_cons; cbn [fst].
  - rewrite decide_True by apply list_elem_of_here. done.
  - rewrite IH. destruct (decide (k ∈ groups.*1)) as [Hin|Hin].
    + rewrite decide_True by (by apply list_elem_of_further). done.
    + rewrite decide_False; [done|].
      rewrite elem_of_cons. intros [?|?]; done.
Qed.

Lemma add_to_group_NoDup k r (groups : list (K * list A)) :
  NoDup groups.*1 → NoDup (add_to_group k r groups).*1.
Proof.
  intros Hnd. rewrite add_to_group_keys.
  destruct (decide (k ∈ groups.*1)); [done|].
  apply NoDup_app. split_and!; [done| |apply NoDup_singleton].
  intros x Hx Hx'. apply list_elem_of_singleton in Hx' as ->. done.
Qed.

Lemma add_to_group_elem k r (groups : list (K * list A)) k0 rs0 :
  NoDup groups.*1 →
  (k0, rs0) ∈ add_to_group k r groups ↔
    (k0 ≠ k ∧ (k0, rs0) ∈ groups)
    ∨ (k0 = k ∧ ((∃ rs, (k, rs) ∈ groups ∧ rs0 = rs ++ [r])
                 ∨ (¬ (k ∈ fst <$> groups) ∧ rs0 = [r]))). 
Proof.
  induction groups as [|[k' rs] groups IH]; cbn [add_to_group]; intros Hnd.
  - rewrite list_elem_of_singleton. split.
    + intros [= -> ->]. right. split; [done|]. right. split; [|done].
      apply not_elem_of_nil.
    + intros [[_ []%elem_of_nil]|[-> [(? & []%elem_of_nil & _)|[_ ->]]]].
      done.
  - rewrite fmap_cons in Hnd. cbn [fst] in Hnd.
    apply NoDup_cons in Hnd as [Hk' Hnd]. specialize (IH Hnd).
    assert (Hfresh : ∀ rs', (k', rs') ∉ groups).
    { intros rs' Hin. apply Hk'.
      apply list_elem_of_fmap. by exists (k', rs'). }
    rewrite fmap_cons, not_elem_of_cons. cbn [fst].
    destruct (decide (k = k')) as [<-|Hne]; rewrite !elem_of_cons.
    + split.
      * intros [Heq|Hin].
        -- injection Heq as -> ->. right. split; [done|]. left.
           exists rs. split; [by left|done].
        -- left. split; [|by right]. intros ->. by eapply Hfresh.
      * intros [[Hne [Heq|Hin]]|[-> [(rs' & Hin & ->)|[[Hnk _] _]]]].
        -- injection Heq as -> ->. done.
        -- by right.
        -- apply elem_of_cons in Hin as [Heq|Hin].
           ++ injection Heq as ->. by left.
           ++ by destruct (Hfresh rs').
        -- done.
    + rewrite IH. split.
      * intros [Heq|[[Hne' Hin]|[-> Hk]]].
        -- injection Heq as -> ->. left. split; [congruence|by left].
        -- left. split; [done|by right].
        -- right. split; [done|].
           destruct Hk as [(rs' & Hin & ->)|[Hnk ->]].
           ++ left. exists rs'. split; [by right|done].
           ++ right. done.
      * intros [[Hne' [Heq|Hin]]|[-> Hk]].
        -- by left.
        -- right. left. done.
        -- right. right. split; [done|].
           destruct Hk as [(rs' & Hin & ->)|[[_ Hnk] ->]].
           ++ apply elem_of_cons in Hin as [Heq|Hin].
              ** injection Heq as -> ->. done.
              ** left. by exists rs'.
           ++ right. done.
Qed.

Lemma groups_of_keys df groups k :
  groups_of key df groups → k ∈ groups.*1 ↔ k ∈ key <$> df.
Proof.
  intros [_ Hg]. split.
  - intros ([k' rs] & -> & Hin)%list_elem_of_fmap. by apply Hg in Hin as [? _].
  - intros Hk. apply list_elem_of_fmap.
    exists (k, filter (λ r, key r = k) df). split; [done|]. by apply Hg.
Qed.

Lemma factorize_snoc df r :
  factorize key (df ++ [r]) = add_to_group (key r) r (factorize key df).
Proof. unfold factorize. by rewrite foldl_snoc. Qed.

Lemma factorize_groups df : groups_of key df (factorize key df).
Proof.
  induction df as [|r df IH] using rev_ind.
  - split; [constructor|]. intros k rs. simpl.
    rewrite elem_of_nil, elem_of_nil. tauto.
  - pose proof (groups_of_keys _ _ (key r) IH) as Hkeys.
    destruct IH as [Hnd Hg]. rewrite factorize_snoc. split.
    + by apply add_to_group_NoDup.
    + intros k rs. rewrite add_to_group_elem by done.
      rewrite fmap_app, elem_of_app, filter_app. simpl.
      rewrite list_elem_of_singleton. split.
      * intros [[Hne Hin]|[-> Hk]].
        -- apply Hg in Hin as [Hk ->]. split; [by left|].
           rewrite (filter_cons_False _ r) by congruence.
           by rewrite filter_nil, app_nil_r.
        -- split; [by right|].
           rewrite (filter_cons_True _ r), filter_nil by done.
           destruct Hk as [(rs' & Hin & ->)|[Hnk ->]].
           ++ apply Hg in Hin as [_ ->]. done.
           ++ rewrite Hkeys in Hnk. f_equal.
              destruct (filter (λ r0, key r0 = key r) df) as [|x xs] eqn:Hf;
                [done|].
              destruct Hnk.
              assert (Hx : x ∈ filter (λ r0, key r0 = key r) df)
                by (rewrite Hf; left).
              apply list_elem_of_filter in Hx as [<- Hx].
              by apply list_elem_of_fmap_2.
      * intros [Hk ->]. destruct (decide (k = key r)) as [->|Hne].
        -- right. split; [done|].
           rewrite (filter_cons_True _ r), filter_nil by done.
           destruct (decide (key r ∈ key <$> df)) as [Hin|Hnin].
           ++ left. eexists. split; [|done]. by apply Hg.
           ++ right. split; [by rewrite Hkeys|].
              destruct (filter (λ r0, key r0 = key r) df) as [|x xs] eqn:Hf;
                [done|].
              destruct Hnin.
              assert (Hx : x ∈ filter (λ r0, key r0 = key r) df)
                by (rewrite Hf; left).
              apply list_elem_of_filter in Hx as [<- Hx].
              by apply list_elem_of_fmap_2.
        -- left. split; [done|].
           rewrite (filter_cons_False _ r) by congruence.
           rewrite filter_nil, app_nil_r. apply Hg. split; [|done].
           destruct Hk as [Hk|Hk]; [done|congruence].
Qed.

Lemma groupby_groups df : groups_of key df (groupby key key_le df).
Proof.
  destruct (factorize_groups df) as [Hnd Hg].
  assert (Hp : groupby key key_le df ≡ₚ factorize key df)
    by apply merge_sort_Permutation.
  split.
  - by rewrite Hp.
  - intros k rs. by rewrite Hp.
Qed.

(** What [groupby(...).agg(f)] returns: one row per key of the frame,
    no key twice, holding [f] of the rows of that key. *)
Lemma groupby_agg_keys {B} (f : list A → B) df :
  (groupby_agg key key_le f df).*1 = (groupby key key_le df).*1.
Proof.
  unfold groupby_agg. rewrite <- list_fmap_compose.
  apply list_fmap_ext. by intros _ [k rs] _.
Qed.

Lemma groupby_agg_NoDup {B} (f : list A → B) df :
  NoDup (groupby_agg key key_le f df).*1.
Proof. rewrite groupby_agg_keys. apply groupby_groups. Qed.

Lemma groupby_agg_elem {B} (f : list A → B) df k b :
  (k, b) ∈ groupby_agg key key_le f df ↔
    k ∈ key <$> df ∧ b = f (filter (λ r, key r = k) df).
Proof.
  destruct (groupby_groups df) as [_ Hg].
  unfold groupby_agg. rewrite list_elem_of_fmap. split.
  - intros ([k' rs] & [= -> ->] & Hin). apply Hg in Hin as [Hk ->]. done.
  - intros [Hk ->]. exists (k, filter (λ r, key r = k) df).
    split; [done|]. by apply Hg.
Qed.
End groupby_facts.

(** *** Sorted groups are unique *)

Section groupby_sorted.
Context {K : Type} `{EqDecision K}.
Context (key_le : relation K) `{!RelDecision key_le}.
Context `{!PartialOrder key_le, !Total key_le}.

Local Instance by_key_trans {B} : Transitive (@by_key K key_le B).
Proof. intros x y z. unfold by_key. apply transitivity. Qed.

Local Instance by_key_total {B} : Total (@by_key K key_le B).
Proof. intros x y. unfold by_key. apply total, _. Qed.

Lemma groupby_agg_sorted {A B} (key : A → K) (f : list A → B) df :
  StronglySorted (by_key key_le) (groupby_agg key key_le f df).
Proof.
  unfold groupby_agg, groupby.
  eapply StronglySorted_fmap; [|apply StronglySorted_merge_sort; apply _].
  by intros [k1 rs1] [k2 rs2].
Qed.

(** Two aggregations over the same keys, with the same value for every
    key, are the same table, whatever the order of the rows was. *)
Lemma groupby_agg_ext {A A' B} (key : A → K) (key' : A' → K)
    (f : list A → B) (f' : list A' → B) df df' :
  (∀ k, k ∈ key <$> df ↔ k ∈ key' <$> df') →
  (∀ k, k ∈ key <$> df →
        f (filter (λ r, key r = k) df) = f' (filter (λ r, key' r = k) df')) →
  groupby_agg key key_le f df = groupby_agg key' key_le f' df'.
Proof.
  intros Hkeys Hvals.
  apply (StronglySorted_unique_strong (by_key key_le));
    [|apply groupby_agg_sorted..|].
  - intros [k1 b1] [k2 b2] H1 H2 Hle1 Hle2. unfold by_key in *. simpl in *.
    assert (k1 = k2) as <- by (by apply (anti_symm key_le)).
    apply groupby_agg_elem in H1 as [Hk ->].
    apply groupby_agg_elem in H2 as [_ ->]. f_equal. by apply Hvals.
  - apply NoDup_Permutation.
    + eapply NoDup_fmap_1, groupby_agg_NoDup.
    + eapply NoDup_fmap_1, groupby_agg_NoDup.
    + intros [k b]. rewrite !groupby_agg_elem. split.
      * intros [Hk ->]. split; [by apply Hkeys|by apply Hvals].
      * intros [Hk ->]. apply Hkeys in Hk. split; [done|].
        symmetry. by apply Hvals.
Qed.

(** In particular the order of the rows does not matter when it does
    not matter to the aggregation. *)
Lemma groupby_agg_Permutation {A B} (key : A → K) (f : list A → B) df df' :
  (∀ rows rows', rows ≡ₚ rows' → f rows = f rows') →
  df ≡ₚ df' →
  groupby_agg key key_le f df = groupby_agg key key_le f df'.
Proof.
  intros Hf Hp. apply groupby_agg_ext.
  - intros k. by rewrite Hp.
  - intros k _. apply Hf. by rewrite Hp.
Qed.
End groupby_sorted.

(** ** The aggregations *)

Lemma dropna_all_None {A} (xs : list (option A)) :
  Forall (λ x, x = None) xs → dropna xs = [].
Proof. induction 1 as [|x xs -> _ IH]; [done|]. exact IH. Qed.

Lemma agg_mean_None xs : agg_mean xs = None ↔ dropna xs = [].
Proof. unfold agg_mean. by destruct (dropna xs). Qed.

(** ** [get_year_genre_resume] *)

(** C5 as stated fails for numVotes: a group whose numVotes are all
    missing gets the sum 0, not a missing value. *)
Lemma all_null_numVotes_sum_is_zero :
  let df := [Titles.Row "t1" 2015 "Drama" None None None] in
  (∀ r, r ∈ df → resume_key r = (2015, "Drama") → Titles.numVotes r = None)
  ∧ get_year_genre_resume df
    = [((2015, "Drama"), Resume.Row None None (Some 0))]
  ∧ ¬ (∀ k row, (k, row) ∈ get_year_genre_resume df →
         (∀ r, r ∈ df → resume_key r = k → Titles.numVotes r = None) →
         Resume.numVotes row = None).
Proof.
  intros df. split_and!.
  - intros r ->%list_elem_of_singleton. done.
  - done.
  - intros H. specialize (H (2015, "Drama") (Resume.Row None None (Some 0))).
    simpl in H. discriminate H.
    + by left.
    + intros r ->%list_elem_of_singleton. done.
Qed.

(** C5, amended.  For a group of the result of [get_year_genre_resume]:
    when the runtimeMinutes of its rows are all missing so is the mean in
    the result, likewise for averageRating; when the numVotes of its rows
    are all missing the sum in the result is 0. *)
Theorem get_year_genre_resume_all_null (titles_data_df : list (Titles.row string))
    (k : GroupKey) (row : Resume.row) :
  (k, row) ∈ get_year_genre_resume titles_data_df →
  ((∀ r, r ∈ titles_data_df → resume_key r = k →
         Titles.runtimeMinutes r = None) →
   Resume.runtimeMinutes row = None)
  ∧ ((∀ r, r ∈ titles_data_df → resume_key r = k →
           Titles.averageRating r = None) →
     Resume.averageRating row = None)
  ∧ ((∀ r, r ∈ titles_data_df → resume_key r = k →
           Titles.numVotes r = None) →
     Resume.numVotes row = Some 0).
Proof.
  intros [_ ->]%groupby_agg_elem. simpl.
  assert (Hall : ∀ {B} (col : Titles.row string → option B),
    (∀ r, r ∈ titles_data_df → resume_key r = k → col r = None) →
    dropna (col <$> filter (λ r, resume_key r = k) titles_data_df) = []).
  { intros B col Hcol. apply dropna_all_None, Forall_fmap, Forall_forall.
    intros r [Hk Hr]%list_elem_of_filter. simpl. by apply Hcol. }
  split_and!; intros Hcol.
  - by apply agg_mean_None, Hall.
  - by apply agg_mean_None, Hall.
  - unfold agg_sum. by rewrite Hall.
Qed.

Lemma get_year_genre_resume_all_null_witness :
  let df := [Titles.Row "t1" 2015 "Drama" None None None;
             Titles.Row "t2" 2015 "Comedy" None (Some (15 # 2)%Q) (Some 10)] in
  let row := Resume.Row None None (Some 0) in
  ((2015, "Drama"), row) ∈ get_year_genre_resume df
  ∧ Resume.runtimeMinutes row = None
  ∧ Resume.averageRating row = None
  ∧ Resume.numVotes row = Some 0.
Proof.
  intros df row.
  assert (Hin : ((2015, "Drama"), row) ∈ get_year_genre_resume df).
  { vm_compute. right. left. }
  assert (Hnull : ∀ {B} (col : Titles.row string → option B),
    col (Titles.Row "t1" 2015 "Drama" None None None) = None →
    ∀ r, r ∈ df → resume_key r = (2015, "Drama") → col r = None).
  { intros B col Hcol r Hr Hk.
    apply elem_of_cons in Hr as [->|Hr]; [done|].
    apply list_elem_of_singleton in Hr as ->. discriminate Hk. }
  destruct (get_year_genre_resume_all_null df (2015, "Drama") row Hin)
    as (H1 & H2 & H3).
  split; [exact Hin|]. split_and!.
  - apply H1, Hnull. reflexivity.
  - apply H2, Hnull. reflexivity.
  - apply H3, Hnull. reflexivity.
Defined.

(** ** [merge] *)

Lemma filter_key_NoDup {K R} `{EqDecision K} (key_r : R → K) (right : list R) k :
  NoDup (key_r <$> right) →
  (length (filter (λ r, key_r r = k) right) ≤ 1)%nat.
Proof.
  induction right as [|r right IH]; [simpl; lia|].
  rewrite fmap_cons, NoDup_cons. intros [Hr Hnd].
  rewrite filter_cons. destruct (decide (key_r r = k)) as [<-|]; [|auto].
  replace (filter (λ r0, key_r r0 = key_r r) right) with (@nil R); [simpl; lia|].
  symmetry. apply elem_of_nil_inv. intros x [Hx Hin]%list_elem_of_filter.
  apply Hr. rewrite <- Hx. by apply list_elem_of_fmap_2.
Qed.

(** When the keys of [right] are unique a left merge keeps every row of
    [left] exactly once, with its partner if it has one. *)
Lemma merge_left_unique {K L R} `{EqDecision K} (key_l : L → K) (key_r : R → K)
    (left : list L) (right : list R) :
  NoDup (key_r <$> right) →
  merge_left key_l key_r left right
  = (λ l, (l, head (filter (λ r, key_r r = key_l l) right))) <$> left.
Proof.
  intros Hnd. unfold merge_left.
  induction left as [|l left IH]; [done|].
  rewrite bind_cons, fmap_cons, IH. f_equal.
  pose proof (filter_key_NoDup key_r right (key_l l) Hnd) as Hlen.
  destruct (filter (λ r, key_r r = key_l l) right) as [|r [|r' rs]];
    simpl in *; [done..|lia].
Qed.

(** ** [get_title_ratings] *)



(** ** [get_crew_data_by_group]: the explosion *)

Lemma length_bind_const {A B} (f : A → list B) (n : nat) (l : list A) :
  (∀ x, length (f x) = n) → length (l ≫= f) = (length l * n)%nat.
Proof.
  intros Hf. induction l as [|x l IH]; [done|].
  rewrite bind_cons, length_app, IH, Hf. simpl. lia.
Qed.

Lemma crew_rows_of_length j :
  length (crew_rows_of j)
  = match Clean.genres j.1, merged_directors j with
    | Some g, Some d => (length (split_comma g) * length (split_comma d))%nat
    | _, _ => 0%nat
    end.
Proof.
  unfold crew_rows_of.
  destruct (Clean.genres j.1) as [g|], (merged_directors j) as [d|]; try done.
  apply length_bind_const. intros genre.
  rewrite (length_bind_const _ 1%nat); [lia|done].
Qed.

Lemma crew_explode_row {G} y (cell : G) w (genres directors : list string) :
  (Crew.set_genres (Crew.Row y cell directors w) <$> genres)
    ≫= (λ r, Crew.set_directors r <$> Crew.directors r)
  = genres ≫= λ genre,
      directors ≫= λ director, [Crew.Row y genre director w].
Proof.
  induction genres as [|genre genres IHg]; [done|].
  rewrite fmap_cons, !bind_cons, IHg. by f_equal.
Qed.

Lemma crew_explode_rows (df : list (Clean.row * option TitleCrew.row)) :
  explode Crew.directors Crew.set_directors
    (explode Crew.genres Crew.set_genres
       (omap split_genres_directors (crew_used_columns <$> df)))
  = df ≫= crew_rows_of.
Proof.
  unfold explode. induction df as [|j df IH]; [done|].
  rewrite fmap_cons, (bind_cons crew_rows_of), <- IH. clear IH.
  generalize (crew_used_columns <$> df). intros rest.
  change (omap split_genres_directors (crew_used_columns j :: rest))
    with (match split_genres_directors (crew_used_columns j) with
          | Some y => y :: omap split_genres_directors rest
          | None => omap split_genres_directors rest
          end).
  unfold crew_rows_of, split_genres_directors at 1, crew_used_columns.
  cbn [Crew.genres Crew.directors Crew.startYear Crew.writers].
  destruct (Clean.genres j.1) as [g|]; [|done].
  destruct (merged_directors j) as [d|]; [|done].
  cbn [mbind option_bind].
  rewrite bind_cons, bind_app. f_equal.
  cbn [Crew.genres]. apply crew_explode_row.
Qed.

(** C6.  In [get_crew_data_by_group], every row left after the rows
    without genres or without directors are dropped is expanded, in
    place, into one row per pair of one of its genres and one of its
    directors, the genres in the outer loop: g × d rows for g genres and
    d directors, each at least one; a title of genres "Drama,Comedy" and
    directors "d1,d2" gives four rows. *)
Theorem crew_exploded_cross_product (clean_title_basics_df : list Clean.row)
    (title_crew_df : list TitleCrew.row) :
  let merged := crew_merged clean_title_basics_df title_crew_df in
  Forall (λ j, ∃ g d, Clean.genres j.1 = Some g ∧ merged_directors j = Some d
                      ∧ length (crew_rows_of j)
                        = (length (split_comma g) * length (split_comma d))%nat
                      ∧ (0 < length (split_comma g))%nat
                      ∧ (0 < length (split_comma d))%nat) merged
  ∧ crew_exploded clean_title_basics_df title_crew_df = merged ≫= crew_rows_of
  ∧ length (crew_exploded clean_title_basics_df title_crew_df)
    = sum_list (length ∘ crew_rows_of <$> merged)
  ∧ (∀ y m w,
       crew_exploded [Clean.Row "t1" y (Some "Drama,Comedy") m]
         [TitleCrew.Row "t1" (Some "d1,d2") w]
       = [Crew.Row y "Drama" "d1" w; Crew.Row y "Drama" "d2" w;
          Crew.Row y "Comedy" "d1" w; Crew.Row y "Comedy" "d2" w]).
Proof.
  intros merged.
  assert (Hexp : crew_exploded clean_title_basics_df title_crew_df
                 = merged ≫= crew_rows_of) by apply crew_explode_rows.
  split_and!.
  - apply Forall_forall. intros j Hj. unfold merged, crew_merged in Hj.
    apply list_elem_of_filter in Hj as [Hd Hj].
    apply list_elem_of_filter in Hj as [Hg _].
    pose proof (crew_rows_of_length j) as Hlen.
    destruct (Clean.genres j.1) as [g|]; [|done].
    destruct (merged_directors j) as [d|]; [|done].
    exists g, d. split_and!; [done..|apply split_length_pos|apply split_length_pos].
  - exact Hexp.
  - rewrite Hexp. generalize merged. intros l.
    induction l as [|j l IH]; [done|].
    rewrite bind_cons, length_app, IH. reflexivity.
  - reflexivity.
Qed.

(** ** Strings *)

Lemma string_app_nil_l (s : string) : "" +:+ s = s.
Proof. reflexivity. Qed.

Lemma string_app_cons c (s1 s2 : string) :
  String c s1 +:+ s2 = String c (s1 +:+ s2).
Proof. reflexivity. Qed.

Lemma string_app_nil_r (s : string) : s +:+ "" = s.
Proof.
  induction s as [|c s IH]; [done|]. by rewrite string_app_cons, IH.
Qed.

Lemma string_app_assoc (s1 s2 s3 : string) :
  (s1 +:+ s2) +:+ s3 = s1 +:+ (s2 +:+ s3).
Proof.
  induction s1 as [|c s1 IH]; [done|]. by rewrite !string_app_cons, IH.
Qed.

Lemma string_app_length (s1 s2 : string) :
  String.length (s1 +:+ s2) = (String.length s1 + String.length s2)%nat.
Proof.
  induction s1 as [|c s1 IH]; [done|].
  rewrite string_app_cons. simpl. by rewrite IH.
Qed.

Lemma list_ascii_of_string_app (s1 s2 : string) :
  String.list_ascii_of_string (s1 +:+ s2)
  = String.list_ascii_of_string s1 ++ String.list_ascii_of_string s2.
Proof.
  induction s1 as [|c s1 IH]; [done|].
  rewrite string_app_cons. simpl. by rewrite IH.
Qed.

Lemma substring_app_l (s1 s2 : string) :
  String.substring 0 (String.length s1) (s1 +:+ s2) = s1.
Proof.
  induction s1 as [|c s1 IH].
  - rewrite string_app_nil_l. by destruct s2.
  - rewrite string_app_cons. simpl. by rewrite IH.
Qed.

Lemma endswith_app (s suffix : string) : endswith (s +:+ suffix) suffix = true.
Proof.
  unfold endswith. apply bool_decide_eq_true.
  rewrite list_ascii_of_string_app. by eexists.
Qed.

Lemma drop_last_app (s suffix : string) :
  drop_last (String.length suffix) (s +:+ suffix) = s.
Proof.
  unfold drop_last. rewrite string_app_length.
  replace (String.length s + String.length suffix - String.length suffix)%nat
    with (String.length s) by lia.
  apply substring_app_l.
Qed.

(** ** [director_id2name] *)

Lemma append_names_Ok d ids names acc :
  Forall2 (λ id name, d !! id = Some name) ids names →
  append_names d ids acc = Ok (acc +:+ names_with_separators names).
Proof.
  intros Hall. revert acc.
  induction Hall as [|id name ids names Hid _ IH]; intros acc; simpl.
  - by rewrite string_app_nil_r.
  - unfold getitem. rewrite Hid. cbn [mbind result_bind]. rewrite IH.
    by rewrite !string_app_assoc.
Qed.

Lemma names_with_separators_concat name names :
  names_with_separators (name :: names)
  = String.concat "; " (name :: names) +:+ "; ".
Proof.
  revert name. induction names as [|name' names IH]; intros name; [done|].
  change (names_with_separators (name :: name' :: names))
    with (name +:+ "; " +:+ names_with_separators (name' :: names)).
  rewrite IH.
  change (String.concat "; " (name :: name' :: names))
    with (name +:+ "; " +:+ String.concat "; " (name' :: names)).
  by rewrite !string_app_assoc.
Qed.

(** The ids of an array that are all in the lookup are rendered as their
    names, in the order of the ids, with ["; "] between two names. *)
Lemma director_id2name_NdArray d ids names :
  Forall2 (λ id name, d !! id = Some name) ids names →
  director_id2name (NdArray ids) d = Ok (String.concat "; " names).
Proof.
  intros Hall. unfold director_id2name.
  rewrite (append_names_Ok d ids names) by done.
  cbn [mbind result_bind]. f_equal.
  destruct names as [|name names]; [done|].
  rewrite names_with_separators_concat.
  rewrite string_app_nil_l, endswith_app. apply (drop_last_app _ "; ").
Qed.

Lemma director_id2name_Scalar d id :
  director_id2name (Scalar id) d
  = match d !! id with
    | Some name => Ok name
    | None => Raise (KeyError id)
    end.
Proof. unfold director_id2name, getitem. by destruct (d !! id). Qed.

(** C8.  For ids that are all in the lookup, [director_id2name] returns
    their names in the order of the ids, joined by ["; "], without
    separator at the end; the ids d1, d2 with the lookup d1: Alice,
    d2: Bob give "Alice; Bob"; a single id gives its name. *)
Theorem director_id2name_spec (id2name_dict : gmap string string)
    (ids names : list string) :
  Forall2 (λ id name, id2name_dict !! id = Some name) ids names →
  director_id2name (NdArray ids) id2name_dict
  = Ok (String.concat "; " names)
  ∧ (∀ id, director_id2name (Scalar id) id2name_dict
           = match id2name_dict !! id with
             | Some name => Ok name
             | None => Raise (KeyError id)
             end)
  ∧ director_id2name (NdArray ["d1"; "d2"])
      (<["d1" := "Alice"]> (<["d2" := "Bob"]> ∅))
    = Ok "Alice; Bob".
Proof.
  intros Hall. split_and!.
  - by apply director_id2name_NdArray.
  - apply director_id2name_Scalar.
  - apply (director_id2name_NdArray _ _ ["Alice"; "Bob"]).
    repeat constructor.
Qed.

Lemma director_id2name_spec_witness :
  let d : gmap string string :=
    <["d1" := "Alice"]> (<["d2" := "Bob"]> (<["d3" := "Carol"]> ∅)) in
  Forall2 (λ id name, d !! id = Some name)
    ["d3"; "d1"; "d2"] ["Carol"; "Alice"; "Bob"]
  ∧ director_id2name (NdArray ["d3"; "d1"; "d2"]) d = Ok "Carol; Alice; Bob"
  ∧ director_id2name (Scalar "d2") d = Ok "Bob".
Proof.
  intros d.
  assert (Hall : Forall2 (λ id name, d !! id = Some name)
                   ["d3"; "d1"; "d2"] ["Carol"; "Alice"; "Bob"]).
  { repeat constructor. }
  destruct (director_id2name_spec d _ _ Hall) as (Harray & Hscalar & _).
  split; [exact Hall|]. split; [exact Harray|].
  rewrite Hscalar. reflexivity.
Defined.

(** *** Unknown ids *)

Lemma append_names_KeyError d ids :
  Exists (λ id, d !! id = None) ids →
  ∃ id, id ∈ ids ∧ d !! id = None
        ∧ ∀ acc, append_names d ids acc = Raise (KeyError id).
Proof.
  induction ids as [|id ids IH]; intros Hex; [by inv Hex|].
  destruct (d !! id) as [name|] eqn:Hid.
  - apply Exists_cons in Hex as [Hex|Hex]; [congruence|].
    destruct IH as (id' & Hin & Hnone & Hraise); [done|].
    exists id'. split_and!; [by right|done|].
    intros acc. simpl. unfold getitem. rewrite Hid. apply Hraise.
  - exists id. split_and!; [by left|done|].
    intros acc. simpl. unfold getitem. by rewrite Hid.
Qed.

Lemma director_id2name_KeyError d cell :
  Exists (λ id, d !! id = None) (mode_ids cell) →
  ∃ id, id ∈ mode_ids cell ∧ d !! id = None
        ∧ director_id2name cell d = Raise (KeyError id).
Proof.
  destruct cell as [id|ids]; simpl; intros Hex.
  - apply Exists_cons in Hex as [Hid|Hex]; [|by inv Hex].
    exists id. split_and!; [by left|done|].
    unfold getitem. by rewrite Hid.
  - destruct (append_names_KeyError d ids Hex) as (id & Hin & Hid & Hraise).
    exists id. split_and!; [done..|]. by rewrite Hraise.
Qed.

(** [mapM] stops at the first exception. *)
Lemma mapM_Raise {A B} (f : A → result B) (l : list A) :
  Exists (λ x, ∃ e, f x = Raise e) l →
  ∃ x e, x ∈ l ∧ f x = Raise e ∧ mapM f l = Raise e.
Proof.
  induction l as [|x l IH]; intros Hex; [by inv Hex|].
  destruct (f x) as [b|e] eqn:Hx.
  - apply Exists_cons in Hex as [[e He]|Hex]; [congruence|].
    destruct IH as (x' & e & Hin & Hx' & Hraise); [done|].
    exists x', e. split_and!; [by right|done|].
    simpl. rewrite Hx. cbn [mbind result_bind]. by rewrite Hraise.
  - exists x, e. split_and!; [by left|done|].
    simpl. by rewrite Hx.
Qed.

(** [run_pipeline] step by step: the crew aggregation may raise, then a
    cast may raise, and only then the file is written. *)
Lemma run_pipeline_unfold (DATASET_URLS : datasets)
    (disk : gmap string (list Output.row)) :
  let clean_title_basics :=
    process_title_basics_df (TITLE_BASICS DATASET_URLS) in
  run_pipeline DATASET_URLS disk
  = match get_crew_data_by_group clean_title_basics (TITLE_CREW DATASET_URLS)
            (get_id2name_dict (NAME_BASICS DATASET_URLS)) with
    | Raise e => (Raise e, disk)
    | Ok (n_directors, top_directors, n_writers) =>
        match mapM cast_columns
                (rename_columns <$>
                   merge_index
                     (merge_index
                        (merge_index
                           (get_year_genre_resume
                              (get_title_ratings clean_title_basics
                                 (TITLE_RATINGS DATASET_URLS)))
                           n_writers)
                        n_directors)
                     top_directors) with
        | Raise e => (Raise e, disk)
        | Ok output => (Ok (), <[OUTPUT_FILE_PATH := output]> disk)
        end
    end.
Proof.
  intros clean. unfold run_pipeline, read_csv, lift, to_csv.
  unfold mbind at 1 2 3 4 5 6, io_bind, mret, io_ret. fold clean.
  destruct (get_crew_data_by_group _ _ _) as [[[n_directors top] n_writers]|e];
    [|done].
  by destruct (mapM cast_columns _).
Qed.

(** C7.  When an id of the top directors of some group is not in the
    lookup built from the name table, [get_crew_data_by_group] raises the
    key error of such an id, and so does [run_pipeline], which leaves
    the files as they were: nothing is written. *)
Theorem unknown_director_aborts (DATASET_URLS : datasets)
    (disk : gmap string (list Output.row))
    (k : GroupKey) (cell : mode_cell) (id : string) :
  (k, cell) ∈ groupby_agg crew_key GroupKey_le agg_top_directors
                (crew_exploded
                   (process_title_basics_df (TITLE_BASICS DATASET_URLS))
                   (TITLE_CREW DATASET_URLS)) →
  id ∈ mode_ids cell →
  get_id2name_dict (NAME_BASICS DATASET_URLS) !! id = None →
  let clean_title_basics :=
    process_title_basics_df (TITLE_BASICS DATASET_URLS) in
  let director_id2name_dict := get_id2name_dict (NAME_BASICS DATASET_URLS) in
  ∃ id', director_id2name_dict !! id' = None
         ∧ get_crew_data_by_group clean_title_basics (TITLE_CREW DATASET_URLS)
             director_id2name_dict
           = Raise (KeyError id')
         ∧ run_pipeline DATASET_URLS disk = (Raise (KeyError id'), disk).
Proof.
  intros Hin Hid Hnone clean dict.
  set (top := groupby_agg crew_key GroupKey_le agg_top_directors
                (crew_exploded clean (TITLE_CREW DATASET_URLS))).
  destruct (mapM_Raise
              (λ g : GroupKey * mode_cell, pair g.1 <$> director_id2name g.2 dict)
              top) as ([k' cell'] & e & Hin' & He & Hraise).
  { apply Exists_exists. exists (k, cell). split; [done|].
    destruct (director_id2name_KeyError dict cell) as (id' & _ & _ & Hr).
    { apply Exists_exists. by exists id. }
    exists (KeyError id'). simpl. by rewrite Hr. }
  simpl in He.
  destruct (director_id2name cell' dict) as [name|e'] eqn:Hcell; [done|].
  injection He as ->.
  assert (Hkey : ∃ id', e = KeyError id' ∧ dict !! id' = None).
  { destruct cell' as [id'|ids]; simpl in Hcell.
    - unfold getitem in Hcell. destruct (dict !! id') eqn:Hd; [done|].
      injection Hcell as <-. by exists id'.
    - destruct (decide (Exists (λ id, dict !! id = None) ids)) as [Hex|Hall].
      + destruct (append_names_KeyError dict ids Hex) as (id' & _ & Hd & Hr).
        rewrite Hr in Hcell. injection Hcell as <-. by exists id'.
      + apply not_Exists_Forall in Hall; [|intros x; apply _].
        assert (Hnames : ∃ names,
                  Forall2 (λ id name, dict !! id = Some name) ids names).
        { clear -Hall. induction Hall as [|id ids Hid _ [names IH]];
            [by exists []|].
          simpl in Hid. destruct (dict !! id) as [name|] eqn:Hd; [|done].
          exists (name :: names). by constructor. }
        destruct Hnames as [names Hnames].
        pose proof (director_id2name_NdArray dict ids names Hnames) as Hok.
        unfold director_id2name in Hok. rewrite Hok in Hcell. done. }
  destruct Hkey as (id' & -> & Hd).
  assert (Hcrew : get_crew_data_by_group clean (TITLE_CREW DATASET_URLS) dict
                  = Raise (KeyError id')).
  { unfold get_crew_data_by_group. cbv zeta. unfold top in Hraise.
    by rewrite Hraise. }
  exists id'. split_and!; [done..|].
  rewrite run_pipeline_unfold. cbv zeta. fold clean dict. by rewrite Hcrew.
Qed.

Lemma unknown_director_aborts_witness :
  let DATASET_URLS :=
    {| NAME_BASICS := [NameBasics.Row "d2" "Bob"];
       TITLE_BASICS :=
         [TitleBasics.Row "t1" (Some "movie") (Some 2015) (Some "Drama")
            (Some (100 # 1)%Q)];
       TITLE_RATINGS := [TitleRatings.Row "t1" (Some (15 # 2)%Q) (Some 10)];
       TITLE_CREW := [TitleCrew.Row "t1" (Some "d1") (Some "w1")] |} in
  let clean_title_basics :=
    process_title_basics_df (TITLE_BASICS DATASET_URLS) in
  let director_id2name_dict := get_id2name_dict (NAME_BASICS DATASET_URLS) in
  ((2015, "Drama"), Scalar "d1")
    ∈ groupby_agg crew_key GroupKey_le agg_top_directors
        (crew_exploded clean_title_basics (TITLE_CREW DATASET_URLS))
  ∧ director_id2name_dict !! "d1" = None
  ∧ ∃ id, director_id2name_dict !! id = None
          ∧ get_crew_data_by_group clean_title_basics
              (TITLE_CREW DATASET_URLS) director_id2name_dict
            = Raise (KeyError id)
          ∧ run_pipeline DATASET_URLS ∅ = (Raise (KeyError id), ∅).
Proof.
  intros DATASET_URLS clean_title_basics director_id2name_dict.
  assert (Hin : ((2015, "Drama"), Scalar "d1")
            ∈ groupby_agg crew_key GroupKey_le agg_top_directors
                (crew_exploded clean_title_basics (TITLE_CREW DATASET_URLS))).
  { vm_compute. left. }
  assert (Hnone : director_id2name_dict !! "d1" = None) by reflexivity.
  split; [exact Hin|]. split; [exact Hnone|].
  apply (unknown_director_aborts DATASET_URLS ∅ (2015, "Drama")
           (Scalar "d1") "d1"); [exact Hin|left|exact Hnone].
Defined.

(** ** [mode] *)

Lemma occurrences_Permutation x xs ys :
  xs ≡ₚ ys → occurrences x xs = occurrences x ys.
Proof. intros Hp. unfold occurrences. by rewrite Hp. Qed.

Lemma occurrences_pos x xs : x ∈ xs ↔ (0 < occurrences x xs)%nat.
Proof.
  unfold occurrences. split.
  - intros Hx. assert (Hin : x ∈ filter (x =.) xs)
      by (by apply list_elem_of_filter).
    destruct (filter (x =.) xs); [by apply elem_of_nil in Hin|simpl; lia].
  - intros Hlen. destruct (filter (x =.) xs) as [|y ys] eqn:Hf;
      [simpl in Hlen; lia|].
    assert (Hin : y ∈ filter (x =.) xs) by (rewrite Hf; left).
    by apply list_elem_of_filter in Hin as [-> ?].
Qed.

(** The modes are the values of the list that no value of the list
    outnumbers. *)
Lemma mode_elem xs x :
  x ∈ mode xs ↔
    x ∈ xs ∧ ∀ y, y ∈ xs → (occurrences y xs ≤ occurrences x xs)%nat.
Proof.
  unfold mode. rewrite merge_sort_Permutation, list_elem_of_filter,
    elem_of_remove_dups.
  set (counts := flip occurrences xs <$> remove_dups xs).
  assert (Hle : ∀ y, y ∈ xs → (occurrences y xs ≤ max_list counts)%nat).
  { intros y Hy. apply max_list_elem_of_le.
    apply (list_elem_of_fmap_2 (flip occurrences xs)).
    by apply elem_of_remove_dups. }
  split.
  - intros [Htop Hx]. split; [done|]. intros y Hy. rewrite Htop. by apply Hle.
  - intros [Hx Hmax]. split; [|done].
    assert (Hne : counts ≠ []).
    { intros Hnil. apply (f_equal length) in Hnil. unfold counts in Hnil.
      rewrite length_fmap in Hnil. simpl in Hnil.
      apply (proj2 (elem_of_remove_dups _ _)) in Hx.
      destruct (remove_dups xs); [by apply elem_of_nil in Hx|done]. }
    apply max_list_elem_of in Hne.
    apply list_elem_of_fmap in Hne as (y & Hy & Hin).
    rewrite elem_of_remove_dups in Hin.
    specialize (Hmax y Hin). specialize (Hle x Hx).
    unfold flip in Hy. lia.
Qed.

Lemma mode_sorted xs : StronglySorted String.le (mode xs).
Proof. unfold mode. apply StronglySorted_merge_sort; apply _. Qed.

Lemma mode_NoDup xs : NoDup (mode xs).
Proof.
  unfold mode. rewrite merge_sort_Permutation.
  apply NoDup_filter, NoDup_remove_dups.
Qed.

(** The modes do not depend on the order of the list. *)
Lemma mode_Permutation xs ys : xs ≡ₚ ys → mode xs = mode ys.
Proof.
  intros Hp. apply (StronglySorted_unique String.le); [apply mode_sorted..|].
  apply NoDup_Permutation; [apply mode_NoDup..|].
  intros x. rewrite !mode_elem. rewrite Hp. split.
  - intros [Hx Hmax]. split; [done|]. intros y Hy.
    rewrite <- !(occurrences_Permutation _ xs ys Hp). apply Hmax.
    by rewrite Hp.
  - intros [Hx Hmax]. split; [done|]. intros y Hy.
    rewrite !(occurrences_Permutation _ xs ys Hp). apply Hmax.
    by rewrite <- Hp.
Qed.

Lemma agg_top_directors_Permutation rows rows' :
  rows ≡ₚ rows' → agg_top_directors rows = agg_top_directors rows'.
Proof.
  intros Hp. unfold agg_top_directors. f_equal.
  apply mode_Permutation. by rewrite Hp.
Qed.

(** The name of a cell of the top-directors column: the names of its ids,
    in their order, with ["; "] between two names. *)
Lemma director_id2name_agg_cell d ids names :
  Forall2 (λ id name, d !! id = Some name) ids names →
  director_id2name (agg_cell ids) d = Ok (String.concat "; " names).
Proof.
  intros Hall. destruct Hall as [|id name ids names Hid Hall].
  - reflexivity.
  - destruct Hall as [|id' name' ids names Hid' Hall].
    + change (agg_cell [id]) with (Scalar id).
      rewrite director_id2name_Scalar, Hid. done.
    + apply (director_id2name_NdArray d (id :: id' :: ids)
               (name :: name' :: names)).
      by repeat constructor.
Qed.

(** C10.  The ids that tie as top directors of a group are kept in
    ascending order of id, none twice, and the name shown for the group
    lists their names in that order; the table of top directors is the
    same for every order of the rows of the frame. *)
Theorem top_directors_ties_ascending (df df' : list (Crew.row string string))
    (k : GroupKey) (id2name_dict : gmap string string) (names : list string) :
  df ≡ₚ df' →
  Forall2 (λ id name, id2name_dict !! id = Some name)
    (mode (Crew.directors <$> filter (λ r, crew_key r = k) df)) names →
  let rows := filter (λ r, crew_key r = k) df in
  let ids := mode (Crew.directors <$> rows) in
  StronglySorted String.le ids
  ∧ NoDup ids
  ∧ (∀ id, id ∈ ids ↔
       id ∈ Crew.directors <$> rows
       ∧ ∀ id', id' ∈ Crew.directors <$> rows →
           (occurrences id' (Crew.directors <$> rows)
            ≤ occurrences id (Crew.directors <$> rows))%nat)
  ∧ director_id2name (agg_top_directors rows) id2name_dict
    = Ok (String.concat "; " names)
  ∧ groupby_agg crew_key GroupKey_le agg_top_directors df'
    = groupby_agg crew_key GroupKey_le agg_top_directors df.
Proof.
  intros Hp Hnames rows ids. split_and!.
  - apply mode_sorted.
  - apply mode_NoDup.
  - intros id. apply mode_elem.
  - by apply director_id2name_agg_cell.
  - apply (groupby_agg_Permutation GroupKey_le); [|done].
    apply agg_top_directors_Permutation.
Qed.

Lemma top_directors_ties_ascending_witness :
  let df := [Crew.Row 2015 "Drama" "d2" None; Crew.Row 2015 "Drama" "d1" None;
             Crew.Row 2016 "Drama" "d3" None; Crew.Row 2015 "Drama" "d3" None;
             Crew.Row 2015 "Drama" "d1" None; Crew.Row 2015 "Drama" "d2" None] in
  let df' := [Crew.Row 2015 "Drama" "d1" None; Crew.Row 2015 "Drama" "d2" None;
              Crew.Row 2016 "Drama" "d3" None; Crew.Row 2015 "Drama" "d3" None;
              Crew.Row 2015 "Drama" "d1" None; Crew.Row 2015 "Drama" "d2" None] in
  let d : gmap string string :=
    <["d1" := "Zoe"]> (<["d2" := "Adam"]> (<["d3" := "Carol"]> ∅)) in
  df ≡ₚ df'
  ∧ mode (Crew.directors <$> filter (λ r, crew_key r = (2015, "Drama")) df)
    = ["d1"; "d2"]
  ∧ director_id2name
      (agg_top_directors (filter (λ r, crew_key r = (2015, "Drama")) df)) d
    = Ok "Zoe; Adam"
  ∧ groupby_agg crew_key GroupKey_le agg_top_directors df'
    = groupby_agg crew_key GroupKey_le agg_top_directors df.
Proof.
  intros df df' d.
  assert (Hp : df ≡ₚ df').
  { apply perm_swap. }
  assert (Hnames : Forall2 (λ id name, d !! id = Some name)
            (mode (Crew.directors
                     <$> filter (λ r, crew_key r = (2015, "Drama")) df))
            ["Zoe"; "Adam"]).
  { repeat constructor. }
  destruct (top_directors_ties_ascending df df' (2015, "Drama") d
              ["Zoe"; "Adam"] Hp Hnames) as (_ & _ & _ & Hname & Htable).
  split; [exact Hp|]. split; [reflexivity|]. split; [exact Hname|exact Htable].
Defined.

(** ** The writers column *)

Lemma filter_fmap {A B} (f : A → B) (P : B → Prop) `{∀ y, Decision (P y)}
    (l : list A) :
  filter P (f <$> l) = f <$> filter (λ x, P (f x)) l.
Proof.
  induction l as [|x l IH]; [done|].
  rewrite fmap_cons, !filter_cons, IH. by destruct (decide (P (f x))).
Qed.

Lemma bind_fmap_comm {A B C} (f : A → list B) (g : B → C) (l : list A) :
  g <$> (l ≫= f) = l ≫= λ x, g <$> f x.
Proof.
  induction l as [|x l IH]; [done|]. by rewrite !bind_cons, fmap_app, IH.
Qed.

(** A change of the rows of [right] that keeps their keys goes through a
    left merge. *)
Lemma merge_left_fmap_r {K L R R'} `{EqDecision K} (key_l : L → K)
    (key_r : R → K) (key_r' : R' → K) (g : R → R')
    (left : list L) (right : list R) :
  (∀ r, key_r' (g r) = key_r r) →
  merge_left key_l key_r' left (g <$> right)
  = prod_map id (fmap (M:=option) g) <$> merge_left key_l key_r left right.
Proof.
  intros Hkey. unfold merge_left. rewrite bind_fmap_comm.
  apply list_bind_ext; [|done]. intros l.
  rewrite filter_fmap.
  rewrite (list_filter_iff (λ x, key_r' (g x) = key_l l)
             (λ r, key_r r = key_l l)) by (intros r; by rewrite Hkey).
  destruct (filter (λ r, key_r r = key_l l) right) as [|r rs]; [done|].
  rewrite fmap_cons. cbv beta iota. rewrite <- !fmap_cons.
  by rewrite <- !list_fmap_compose.
Qed.

(** A change of the values of [left] goes through a merge on the index. *)
Lemma merge_index_fmap_l {K L L' R} `{EqDecision K} (h : L → L')
    (left : list (K * L)) (right : list (K * R)) :
  merge_index (prod_map id h <$> left) right
  = prod_map id (prod_map h id) <$> merge_index left right.
Proof.
  unfold merge_index, merge_left.
  rewrite list_fmap_bind, !bind_fmap_comm.
  apply list_bind_ext; [|done]. intros [k l]. simpl.
  destruct (filter (λ r, r.1 = k) right) as [|r rs]; [done|].
  simpl. f_equal. induction rs as [|r' rs IH]; simpl; [done|]. by f_equal.
Qed.

(** Merging a table of unique keys on the index adds a column and
    neither adds nor removes a row. *)
Lemma merge_index_unique {K L R} `{EqDecision K}
    (left : list (K * L)) (right : list (K * R)) :
  NoDup right.*1 → prod_map id fst <$> merge_index left right = left.
Proof.
  intros Hnd. unfold merge_index.
  rewrite (merge_left_unique fst fst left right Hnd).
  rewrite <- !list_fmap_compose.
  rewrite <- (list_fmap_id left) at 2.
  apply list_fmap_ext. by intros _ [k l] _.
Qed.

Lemma cast_columns_without_writers
    (r : GroupKey * (Resume.row * option nat * option nat * option string)) :
  cast_columns (rename_columns r)
  = cast_without_writers
      (prod_map id (prod_map (prod_map fst id) id) r).
Proof. by destruct r as [k [[[resume w] d] t]]. Qed.

Lemma mapM_cons_result {A B} (f : A → result B) x (l : list A) :
  mapM f (x :: l) = y ← f x; k ← mapM f l; mret (y :: k).
Proof. reflexivity. Qed.

Lemma mapM_fmap_result {A B C} (f : B → result C) (g : A → B) (l : list A) :
  mapM f (g <$> l) = mapM (f ∘ g) l.
Proof.
  induction l as [|x l IH]; [done|].
  by rewrite fmap_cons, !mapM_cons_result, IH.
Qed.

Lemma mapM_ext_result {A B} (f g : A → result B) (l : list A) :
  (∀ x, f x = g x) → mapM f l = mapM g l.
Proof.
  intros Hfg. induction l as [|x l IH]; [done|].
  by rewrite !mapM_cons_result, Hfg, IH.
Qed.

Lemma output_without_writers
    (year_genre_resume : list (GroupKey * Resume.row))
    (n_writers n_directors : list (GroupKey * nat))
    (top_directors : list (GroupKey * string)) :
  NoDup n_writers.*1 →
  mapM cast_columns
    (rename_columns <$>
       merge_index
         (merge_index (merge_index year_genre_resume n_writers) n_directors)
         top_directors)
  = mapM cast_without_writers
      (merge_index (merge_index year_genre_resume n_directors) top_directors).
Proof.
  intros Hnd. rewrite mapM_fmap_result.
  rewrite (mapM_ext_result _ _ _ cast_columns_without_writers).
  change (λ x, cast_without_writers
                 (prod_map id (prod_map (prod_map fst id) id) x))
    with (cast_without_writers
            ∘ prod_map (@id GroupKey)
                (prod_map (prod_map (@fst Resume.row (option nat))
                             (@id (option nat))) (@id (option string)))).
  rewrite <- mapM_fmap_result. f_equal.
  rewrite <- !merge_index_fmap_l. by rewrite merge_index_unique.
Qed.

Lemma mapM_Ok_Forall {A B} (f : A → result B) (P : B → Prop) l k :
  (∀ x y, f x = Ok y → P y) → mapM f l = Ok k → Forall P k.
Proof.
  intros Hf. revert k. induction l as [|x l IH]; intros k; simpl.
  - intros [= <-]. constructor.
  - destruct (f x) as [y|e] eqn:Hx; [|done]. cbn [mbind result_bind].
    destruct (mapM f l) as [k'|e]; [|done]. intros [= <-].
    constructor; [by eapply Hf|by apply IH].
Qed.

Lemma cast_columns_numWriters r o :
  cast_columns r = Ok o → Output.numWriters o = Output.numVotes o.
Proof.
  unfold cast_columns. destruct (Merged.numVotes r) as [v|]; [|done].
  simpl. by intros [= <-].
Qed.

Lemma crew_exploded_rows clean_title_basics_df title_crew_df :
  crew_exploded clean_title_basics_df title_crew_df
  = crew_merged clean_title_basics_df title_crew_df ≫= crew_rows_of.
Proof. apply crew_explode_rows. Qed.

Lemma crew_merged_forget clean_title_basics_df title_crew_df :
  crew_merged clean_title_basics_df (forget_writers <$> title_crew_df)
  = prod_map id (fmap (M:=option) forget_writers)
      <$> crew_merged clean_title_basics_df title_crew_df.
Proof.
  unfold crew_merged.
  rewrite (merge_left_fmap_r Clean.tconst TitleCrew.tconst TitleCrew.tconst
             forget_writers) by done.
  rewrite !filter_fmap. f_equal.
  apply list_filter_iff. intros [c [r|]]; done.
Qed.

Lemma crew_rows_of_forget (j : Clean.row * option TitleCrew.row) :
  crew_rows_of (prod_map id (fmap (M:=option) forget_writers) j)
  = erase_writers <$> crew_rows_of j.
Proof.
  destruct j as [c [r|]]; unfold crew_rows_of, merged_directors, merged_writers;
    simpl.
  - destruct (Clean.genres c) as [g|]; [|done].
    destruct (TitleCrew.directors r) as [d|]; [|done].
    rewrite bind_fmap_comm. apply list_bind_ext; [|done]. intros genre.
    rewrite bind_fmap_comm. by apply list_bind_ext.
  - by destruct (Clean.genres c).
Qed.

Lemma crew_exploded_forget clean_title_basics_df title_crew_df :
  crew_exploded clean_title_basics_df (forget_writers <$> title_crew_df)
  = erase_writers <$> crew_exploded clean_title_basics_df title_crew_df.
Proof.
  rewrite !crew_exploded_rows, crew_merged_forget, list_fmap_bind,
    bind_fmap_comm.
  apply list_bind_ext; [|done]. intros j. apply crew_rows_of_forget.
Qed.

(** An aggregation that does not look at the writers gives the same table
    with and without them. *)
Lemma groupby_agg_erase_writers {B} (f : list (Crew.row string string) → B)
    (df : list (Crew.row string string)) :
  (∀ rows, f (erase_writers <$> rows) = f rows) →
  groupby_agg crew_key GroupKey_le f (erase_writers <$> df)
  = groupby_agg crew_key GroupKey_le f df.
Proof.
  intros Hf. apply (groupby_agg_ext GroupKey_le).
  - intros k. by rewrite <- list_fmap_compose.
  - intros k _. rewrite filter_fmap. apply Hf.
Qed.

Lemma agg_n_directors_erase rows :
  agg_n_directors (erase_writers <$> rows) = agg_n_directors rows.
Proof. unfold agg_n_directors. by rewrite <- list_fmap_compose. Qed.

Lemma agg_top_directors_erase rows :
  agg_top_directors (erase_writers <$> rows) = agg_top_directors rows.
Proof. unfold agg_top_directors. by rewrite <- list_fmap_compose. Qed.

Lemma crew_tables_forget {B} (f : list (Crew.row string string) → B)
    clean_title_basics_df title_crew_df title_crew_df' :
  (∀ rows, f (erase_writers <$> rows) = f rows) →
  forget_writers <$> title_crew_df' = forget_writers <$> title_crew_df →
  groupby_agg crew_key GroupKey_le f
    (crew_exploded clean_title_basics_df title_crew_df')
  = groupby_agg crew_key GroupKey_le f
      (crew_exploded clean_title_basics_df title_crew_df).
Proof.
  intros Hf Hcrew.
  rewrite <- (groupby_agg_erase_writers f
                (crew_exploded clean_title_basics_df title_crew_df')) by done.
  rewrite <- (groupby_agg_erase_writers f
                (crew_exploded clean_title_basics_df title_crew_df)) by done.
  by rewrite <- !crew_exploded_forget, Hcrew.
Qed.

(** C2.  In the file written by [run_pipeline] the column numWriters is
    the column numVotes, row by row; the file does not depend on the
    writers of the crew table, hence not on the table [n_writers]: two
    crew tables that differ only in their writers give the same run. *)
Theorem numWriters_is_numVotes (DATASET_URLS : datasets)
    (title_crew_df' : list TitleCrew.row)
    (disk : gmap string (list Output.row)) :
  forget_writers <$> title_crew_df'
  = forget_writers <$> TITLE_CREW DATASET_URLS →
  match run_pipeline DATASET_URLS disk with
  | (Ok _, disk') =>
      ∃ output, disk' = <[OUTPUT_FILE_PATH := output]> disk
                ∧ Forall (λ r, Output.numWriters r = Output.numVotes r) output
  | (Raise _, disk') => disk' = disk
  end
  ∧ run_pipeline
      {| NAME_BASICS := NAME_BASICS DATASET_URLS;
         TITLE_BASICS := TITLE_BASICS DATASET_URLS;
         TITLE_RATINGS := TITLE_RATINGS DATASET_URLS;
         TITLE_CREW := title_crew_df' |} disk
    = run_pipeline DATASET_URLS disk.
Proof.
  intros Hcrew. split.
  - rewrite run_pipeline_unfold. cbv zeta.
    destruct (get_crew_data_by_group _ _ _)
      as [[[n_directors top_directors] n_writers]|e]; [|done].
    destruct (mapM cast_columns _) as [output|e] eqn:Hcast; [|done].
    exists output. split; [done|].
    eapply mapM_Ok_Forall; [|exact Hcast].
    apply cast_columns_numWriters.
  - rewrite !run_pipeline_unfold. cbv zeta.
    cbn [NAME_BASICS TITLE_BASICS TITLE_RATINGS TITLE_CREW].
    unfold get_crew_data_by_group. cbv zeta.
    rewrite (crew_tables_forget agg_top_directors _ _ _
               agg_top_directors_erase Hcrew).
    destruct (mapM _ (groupby_agg crew_key GroupKey_le agg_top_directors _))
      as [top_directors|e]; [|done].
    cbn [mbind result_bind].
    rewrite (crew_tables_forget agg_n_directors _ _ _
               agg_n_directors_erase Hcrew).
    rewrite !output_without_writers by apply groupby_agg_NoDup.
    done.
Qed.

Lemma numWriters_is_numVotes_witness :
  let DATASET_URLS :=
    {| NAME_BASICS := [NameBasics.Row "d1" "Alice"];
       TITLE_BASICS :=
         [TitleBasics.Row "t1" (Some "movie") (Some 2015) (Some "Drama")
            (Some (100 # 1)%Q);
          TitleBasics.Row "t2" (Some "movie") (Some 2015) (Some "Drama")
            (Some (91 # 1)%Q)];
       TITLE_RATINGS :=
         [TitleRatings.Row "t1" (Some (15 # 2)%Q) (Some 10);
          TitleRatings.Row "t2" (Some (7 # 1)%Q) (Some 5)];
       TITLE_CREW :=
         [TitleCrew.Row "t1" (Some "d1") (Some "w1");
          TitleCrew.Row "t2" (Some "d1") (Some "w2")] |} in
  let title_crew_df' :=
    [TitleCrew.Row "t1" (Some "d1") (Some "w1");
     TitleCrew.Row "t2" (Some "d1") (Some "w1")] in
  forget_writers <$> title_crew_df'
  = forget_writers <$> TITLE_CREW DATASET_URLS
  ∧ (get_crew_data_by_group
       (process_title_basics_df (TITLE_BASICS DATASET_URLS))
       (TITLE_CREW DATASET_URLS)
       (get_id2name_dict (NAME_BASICS DATASET_URLS))
     = Ok ([((2015, "Drama"), 1%nat)], [((2015, "Drama"), "Alice")],
           [((2015, "Drama"), 2%nat)]))
  ∧ run_pipeline DATASET_URLS ∅
    = (Ok (),
       {[ OUTPUT_FILE_PATH :=
            [Output.Row 2015 "Drama" (Some (191 # 2)%Q) (Some (29 # 4)%Q)
               15 15 1 (Some "Alice")] ]})
  ∧ run_pipeline
      {| NAME_BASICS := NAME_BASICS DATASET_URLS;
         TITLE_BASICS := TITLE_BASICS DATASET_URLS;
         TITLE_RATINGS := TITLE_RATINGS DATASET_URLS;
         TITLE_CREW := title_crew_df' |} ∅
    = run_pipeline DATASET_URLS ∅.
Proof.
  intros DATASET_URLS title_crew_df'.
  assert (Hcrew : forget_writers <$> title_crew_df'
                  = forget_writers <$> TITLE_CREW DATASET_URLS)
    by reflexivity.
  destruct (numWriters_is_numVotes DATASET_URLS title_crew_df' ∅ Hcrew)
    as [_ Hsame].
  split; [exact Hcrew|]. split; [reflexivity|].
  split; [reflexivity|exact Hsame].
Defined.

(** * Further properties of the code *)

(** ** [get_id2name_dict] *)

Lemma get_id2name_dict_snoc df r :
  get_id2name_dict (df ++ [r])
  = <[NameBasics.nconst r := NameBasics.primaryName r]> (get_id2name_dict df).
Proof. unfold get_id2name_dict. by rewrite foldl_snoc. Qed.

(** X1.  The lookup built by [get_id2name_dict] maps an id to the name of
    the last row of the name table with that id, and has no entry for an
    id that is on no row. *)
Theorem get_id2name_dict_lookup (name_basics_df : list NameBasics.row)
    (id : string) :
  get_id2name_dict name_basics_df !! id
  = NameBasics.primaryName
      <$> last (filter (λ r, NameBasics.nconst r = id) name_basics_df)
  ∧ (is_Some (get_id2name_dict name_basics_df !! id) ↔
       id ∈ NameBasics.nconst <$> name_basics_df).
Proof.
  assert (Hlookup : ∀ df, get_id2name_dict df !! id
    = NameBasics.primaryName
        <$> last (filter (λ r, NameBasics.nconst r = id) df)).
  { intros df. induction df as [|r df IH] using rev_ind; [done|].
    rewrite get_id2name_dict_snoc, filter_app, filter_cons, filter_nil.
    destruct (decide (NameBasics.nconst r = id)) as [<-|Hne].
    - by rewrite lookup_insert_eq, last_snoc.
    - by rewrite lookup_insert_ne, app_nil_r. }
  split; [apply Hlookup|].
  rewrite Hlookup, fmap_is_Some. split.
  - intros [r Hr]. apply last_Some_elem_of in Hr.
    apply list_elem_of_filter in Hr as [<- Hr]. by apply list_elem_of_fmap_2.
  - intros (r & -> & Hr)%list_elem_of_fmap.
    assert (Hin : r ∈ filter (λ r', NameBasics.nconst r' = NameBasics.nconst r)
                        name_basics_df) by (by apply list_elem_of_filter).
    destruct (filter _ name_basics_df) as [|x l] using rev_ind;
      [by apply elem_of_nil in Hin|].
    rewrite last_snoc. by eexists.
Qed.

(** ** [director_id2name] *)

Lemma append_names_first_absent d pre id post acc :
  Forall (λ i, is_Some (d !! i)) pre →
  d !! id = None →
  append_names d (pre ++ id :: post) acc = Raise (KeyError id).
Proof.
  intros Hpre Hid. revert acc.
  induction Hpre as [|i pre [name Hi] _ IH]; intros acc; simpl.
  - unfold getitem. by rewrite Hid.
  - unfold getitem. rewrite Hi. apply IH.
Qed.

(** X2.  On an array of ids, [director_id2name] raises the key error of
    the first id that is not in the lookup, whatever follows it; on a
    single id that is not in the lookup it raises the key error of that
    id. *)
Theorem director_id2name_first_absent (id2name_dict : gmap string string)
    (pre post : list string) (id : string) :
  Forall (λ i, is_Some (id2name_dict !! i)) pre →
  id2name_dict !! id = None →
  director_id2name (NdArray (pre ++ id :: post)) id2name_dict
  = Raise (KeyError id)
  ∧ director_id2name (Scalar id) id2name_dict = Raise (KeyError id).
Proof.
  intros Hpre Hid. split.
  - unfold director_id2name.
    by rewrite (append_names_first_absent _ pre id post "" Hpre Hid).
  - by rewrite director_id2name_Scalar, Hid.
Qed.

Lemma director_id2name_first_absent_witness :
  let d : gmap string string := <["d1" := "Alice"]> (<["d2" := "Bob"]> ∅) in
  Forall (λ i, is_Some (d !! i)) ["d2"; "d1"]
  ∧ d !! "d7" = None
  ∧ director_id2name (NdArray (["d2"; "d1"] ++ "d7" :: ["d9"; "d1"])) d
    = Raise (KeyError "d7")
  ∧ director_id2name (Scalar "d7") d = Raise (KeyError "d7").
Proof.
  intros d.
  assert (Hpre : Forall (λ i, is_Some (d !! i)) ["d2"; "d1"]).
  { repeat constructor; by eexists. }
  assert (Hid : d !! "d7" = None) by reflexivity.
  split; [exact Hpre|]. split; [exact Hid|].
  exact (director_id2name_first_absent d ["d2"; "d1"] ["d9"; "d1"] "d7"
           Hpre Hid).
Defined.

Lemma ids_present_or_first_absent (d : gmap string string) (ids : list string) :
  (∃ names, Forall2 (λ id name, d !! id = Some name) ids names)
  ∨ (∃ pre id post, ids = pre ++ id :: post
                    ∧ Forall (λ i, is_Some (d !! i)) pre ∧ d !! id = None).
Proof.
  induction ids as [|i ids IH].
  - left. by exists [].
  - destruct (d !! i) as [name|] eqn:Hi.
    + destruct IH as [[names Hnames]|(pre & id & post & -> & Hpre & Hid)].
      * left. exists (name :: names). by constructor.
      * right. exists (i :: pre), id, post. split_and!; [done| |done].
        constructor; [by eexists|done].
    + right. exists [], i, ids. split_and!; [done|constructor|done].
Qed.

(** X3.  When [director_id2name] returns a string, every id of the cell
    is in the lookup and the string is the names of the ids, in their
    order, joined by ["; "]: no id is skipped and no name is invented. *)
Theorem director_id2name_Ok_inv (id2name_dict : gmap string string)
    (cell : mode_cell) (s : string) :
  director_id2name cell id2name_dict = Ok s →
  ∃ names, Forall2 (λ id name, id2name_dict !! id = Some name)
             (mode_ids cell) names
           ∧ length names = length (mode_ids cell)
           ∧ s = String.concat "; " names.
Proof.
  destruct cell as [id|ids]; cbn [mode_ids].
  - rewrite director_id2name_Scalar.
    destruct (id2name_dict !! id) as [name|] eqn:Hid; [|done].
    intros [= <-]. exists [name]. split_and!; [by repeat constructor|done..].
  - intros Hok.
    destruct (ids_present_or_first_absent id2name_dict ids)
      as [[names Hnames]|(pre & id & post & -> & Hpre & Hid)].
    + exists names. split_and!; [done|by eapply eq_sym, Forall2_length|].
      rewrite (director_id2name_NdArray _ _ _ Hnames) in Hok. congruence.
    + destruct (director_id2name_first_absent _ pre post id Hpre Hid)
        as [Hraise _].
      congruence.
Qed.

Lemma director_id2name_Ok_inv_witness :
  let d : gmap string string := <["d1" := "Alice"]> (<["d2" := "Bob"]> ∅) in
  director_id2name (NdArray ["d2"; "d1"]) d = Ok "Bob; Alice"
  ∧ ∃ names, Forall2 (λ id name, d !! id = Some name) ["d2"; "d1"] names
             ∧ length names = 2%nat
             ∧ "Bob; Alice" = String.concat "; " names.
Proof.
  intros d.
  assert (Hok : director_id2name (NdArray ["d2"; "d1"]) d = Ok "Bob; Alice")
    by reflexivity.
  split; [exact Hok|].
  exact (director_id2name_Ok_inv d (NdArray ["d2"; "d1"]) "Bob; Alice" Hok).
Defined.

(** ** [split] *)

Lemma concat_cons sep (x : string) (y : string) (ys : list string) :
  String.concat sep (x :: y :: ys) = x +:+ sep +:+ String.concat sep (y :: ys).
Proof. reflexivity. Qed.

Lemma count_char_cons a c s :
  count_char a (String c s)
  = if decide (a = c) then S (count_char a s) else count_char a s.
Proof.
  unfold count_char. cbn [String.list_ascii_of_string].
  rewrite filter_cons. by destruct (decide (a = c)).
Qed.

(** X4.  Joining the pieces of [x.split(",")] with commas gives the
    string back; no piece holds a comma; there is one more piece than
    there are commas in the string. *)
Theorem split_comma_join (s : string) :
  String.concat "," (split_comma s) = s
  ∧ Forall (λ piece, count_char "," piece = 0%nat) (split_comma s)
  ∧ length (split_comma s) = S (count_char "," s).
Proof.
  unfold split_comma. induction s as [|c s (IH1 & IH2 & IH3)].
  - split_and!; [done|by repeat constructor|done].
  - cbn [split]. rewrite count_char_cons.
    pose proof (split_nonempty ","%char s) as Hnil.
    destruct (decide (c = ","%char)) as [->|Hne].
    + rewrite decide_True by done. split_and!.
      * destruct (split ","%char s) as [|p ps]; [done|].
        rewrite concat_cons, IH1. done.
      * constructor; [done|exact IH2].
      * cbn [length]. by rewrite IH3.
    + rewrite decide_False by congruence.
      destruct (split ","%char s) as [|p ps]; [done|]. split_and!.
      * destruct ps as [|p' ps].
        -- cbn [String.concat] in *. by rewrite IH1.
        -- rewrite concat_cons in *. rewrite string_app_cons. by rewrite IH1.
      * apply Forall_cons in IH2 as [Hp Hps]. constructor; [|done].
        rewrite count_char_cons, decide_False by congruence. exact Hp.
      * exact IH3.
Qed.

(** ** [process_title_basics_df] *)

Lemma process_title_basics_df_filter df :
  process_title_basics_df df = omap used_columns (filter kept df).
Proof.
  unfold process_title_basics_df. f_equal.
  rewrite list_filter_filter. apply list_filter_iff.
  intros r. rewrite <- masks_kept. tauto.
Qed.

Lemma used_columns_tconst r c :
  used_columns r = Some c → Clean.tconst c = TitleBasics.tconst r.
Proof.
  unfold used_columns. destruct (TitleBasics.startYear r); [|done].
  by intros [= <-].
Qed.

Lemma process_title_basics_df_ids df :
  Clean.tconst <$> process_title_basics_df df
  `sublist_of` TitleBasics.tconst <$> df.
Proof.
  rewrite process_title_basics_df_filter.
  induction df as [|r df IH]; [done|].
  rewrite filter_cons. destruct (decide (kept r)) as [Hk|Hk].
  - cbn [omap list_omap]. destruct (used_columns r) as [c|] eqn:Hc.
    + rewrite !fmap_cons, (used_columns_tconst r c Hc).
      by apply sublist_skip.
    + rewrite fmap_cons. by apply sublist_cons.
  - rewrite fmap_cons. by apply sublist_cons.
Qed.

(** X5.  [process_title_basics_df] works row by row: cleaning two tables
    one after the other gives the rows of cleaning them together; it adds
    no row, and its ids are ids of the input in their order. *)
Theorem process_title_basics_df_app (df1 df2 : list TitleBasics.row) :
  process_title_basics_df (df1 ++ df2)
  = process_title_basics_df df1 ++ process_title_basics_df df2
  ∧ (length (process_title_basics_df df1) ≤ length df1)%nat
  ∧ Clean.tconst <$> process_title_basics_df df1
    `sublist_of` TitleBasics.tconst <$> df1.
Proof.
  split_and!.
  - by rewrite !process_title_basics_df_filter, filter_app, omap_app.
  - pose proof (sublist_length _ _ (process_title_basics_df_ids df1)) as Hlen.
    by rewrite !length_fmap in Hlen.
  - apply process_title_basics_df_ids.
Qed.

(** X6.  When the ids of the title table are unique so are the ids of
    the cleaned table. *)
Theorem process_title_basics_df_NoDup (title_basics_df : list TitleBasics.row) :
  NoDup (TitleBasics.tconst <$> title_basics_df) →
  NoDup (Clean.tconst <$> process_title_basics_df title_basics_df).
Proof.
  intros Hnd. eapply sublist_NoDup; [exact Hnd|].
  apply process_title_basics_df_ids.
Qed.

Lemma process_title_basics_df_NoDup_witness :
  let df := [TitleBasics.Row "t1" (Some "movie") (Some 2015) (Some "Drama") None;
             TitleBasics.Row "t2" (Some "short") (Some 2016) None None;
             TitleBasics.Row "t3" (Some "movie") (Some 2020) None None] in
  NoDup (TitleBasics.tconst <$> df)
  ∧ NoDup (Clean.tconst <$> process_title_basics_df df).
Proof.
  intros df.
  assert (Hnd : NoDup (TitleBasics.tconst <$> df)).
  { compute_done. }
  split; [exact Hnd|]. exact (process_title_basics_df_NoDup df Hnd).
Defined.

(** ** [merge] and [get_title_ratings] without unique rating ids *)

Section merge_left_facts.
Context {K L R : Type} `{EqDecision K}.
Context (key_l : L → K) (key_r : R → K).

Lemma merge_left_elem (left : list L) (right : list R) j :
  j ∈ merge_left key_l key_r left right ↔
    j.1 ∈ left
    ∧ match j.2 with
      | Some r => r ∈ right ∧ key_r r = key_l j.1
      | None => ∀ r, r ∈ right → key_r r ≠ key_l j.1
      end.
Proof.
  unfold merge_left. rewrite list_elem_of_bind. split.
  - intros (l & Hj & Hl).
    destruct (filter (λ r, key_r r = key_l l) right) as [|r rs] eqn:Hf.
    + apply list_elem_of_singleton in Hj as ->. split; [done|].
      intros r Hr Hk. simpl in Hk.
      assert (Hin : r ∈ filter (λ r, key_r r = key_l l) right)
        by (by apply list_elem_of_filter).
      rewrite Hf in Hin. by apply elem_of_nil in Hin.
    + apply list_elem_of_fmap in Hj as (r' & -> & Hr'). split; [done|].
      rewrite <- Hf in Hr'. apply list_elem_of_filter in Hr' as [Hk Hr'].
      done.
  - destruct j as [l [r|]]; cbn [fst snd]; intros [Hl Hr]; exists l;
      (split; [|done]).
    + destruct Hr as [Hr Hk].
      assert (Hin : r ∈ filter (λ r, key_r r = key_l l) right)
        by (by apply list_elem_of_filter).
      destruct (filter (λ r, key_r r = key_l l) right) as [|r' rs];
        [by apply elem_of_nil in Hin|].
      by apply (list_elem_of_fmap_2 (λ r, (l, Some r))).
    + destruct (filter (λ r, key_r r = key_l l) right) as [|r' rs] eqn:Hf;
        [by left|].
      assert (Hin : r' ∈ filter (λ r, key_r r = key_l l) right)
        by (rewrite Hf; left).
      apply list_elem_of_filter in Hin as [Hk Hin]. by destruct (Hr r').
Qed.

Lemma merge_left_retains (left : list L) (right : list R) l :
  l ∈ left → ∃ j, j ∈ merge_left key_l key_r left right ∧ j.1 = l.
Proof.
  intros Hl.
  destruct (filter (λ r, key_r r = key_l l) right) as [|r rs] eqn:Hf.
  - exists (l, None). split; [|done]. apply merge_left_elem. split; [done|].
    simpl. intros r Hr Hk.
    assert (Hin : r ∈ filter (λ r, key_r r = key_l l) right)
      by (by apply list_elem_of_filter).
    rewrite Hf in Hin. by apply elem_of_nil in Hin.
  - exists (l, Some r). split; [|done]. apply merge_left_elem. split; [done|].
    simpl. assert (Hin : r ∈ filter (λ r, key_r r = key_l l) right)
      by (rewrite Hf; left).
    by apply list_elem_of_filter in Hin as [Hk Hin].
Qed.

End merge_left_facts.

Lemma get_title_ratings_rows (clean_title_basics_df : list Clean.row)
    (title_ratings_df : list TitleRatings.row) :
  get_title_ratings clean_title_basics_df title_ratings_df
  = merge_left Clean.tconst TitleRatings.tconst clean_title_basics_df
      title_ratings_df ≫= titles_rows_of.
Proof.
  unfold get_title_ratings.
  generalize (merge_left Clean.tconst TitleRatings.tconst
                clean_title_basics_df title_ratings_df).
  intros merged. unfold explode.
  induction merged as [|j merged IH]; [done|].
  rewrite filter_cons, (bind_cons titles_rows_of), <- IH. clear IH.
  unfold titles_rows_of at 1.
  destruct (Clean.genres j.1) as [g|] eqn:Hg; cbn [notna].
  - rewrite decide_True by done. cbn [omap list_omap].
    unfold split_genres at 1. rewrite Hg. cbn [mbind option_bind].
    rewrite bind_cons, fmap_app. f_equal.
    cbn [Titles.genres]. rewrite <- list_fmap_compose. done.
  - by rewrite decide_False by (by intros []).
Qed.

(** X7.  Whatever the ratings table holds, every row of the result of
    [get_title_ratings] comes from a clean title with genres: it has the
    id, year and runtimeMinutes of the title and one of its genres, and
    its rating columns are those of a rating row of the same id, or are
    missing when no rating row has that id; and every genre of every
    clean title with genres is on some row of the result. *)
Theorem get_title_ratings_provenance (clean_title_basics_df : list Clean.row)
    (title_ratings_df : list TitleRatings.row) :
  (∀ r, r ∈ get_title_ratings clean_title_basics_df title_ratings_df →
     ∃ c g, c ∈ clean_title_basics_df
            ∧ Clean.genres c = Some g
            ∧ Titles.genres r ∈ split_comma g
            ∧ Titles.tconst r = Clean.tconst c
            ∧ Titles.startYear r = Clean.startYear c
            ∧ Titles.runtimeMinutes r = Clean.runtimeMinutes c
            ∧ ((∃ rating, rating ∈ title_ratings_df
                          ∧ TitleRatings.tconst rating = Clean.tconst c
                          ∧ Titles.averageRating r
                            = TitleRatings.averageRating rating
                          ∧ Titles.numVotes r = TitleRatings.numVotes rating)
               ∨ ((∀ rating, rating ∈ title_ratings_df →
                             TitleRatings.tconst rating ≠ Clean.tconst c)
                  ∧ Titles.averageRating r = None
                  ∧ Titles.numVotes r = None)))
  ∧ (∀ c g genre, c ∈ clean_title_basics_df → Clean.genres c = Some g →
       genre ∈ split_comma g →
       ∃ r, r ∈ get_title_ratings clean_title_basics_df title_ratings_df
            ∧ Titles.tconst r = Clean.tconst c
            ∧ Titles.startYear r = Clean.startYear c
            ∧ Titles.genres r = genre).
Proof.
  rewrite get_title_ratings_rows. split.
  - intros r (j & Hr & Hj)%list_elem_of_bind.
    apply merge_left_elem in Hj as [Hc Hrating].
    unfold titles_rows_of in Hr.
    destruct (Clean.genres j.1) as [g|] eqn:Hg; [|by apply elem_of_nil in Hr].
    apply list_elem_of_fmap in Hr as (genre & -> & Hgenre).
    exists j.1, g. split_and!; [done..|].
    unfold merged_averageRating, merged_numVotes. cbn [Titles.averageRating
      Titles.numVotes].
    destruct j.2 as [rating|].
    + left. exists rating. destruct Hrating. done.
    + right. done.
  - intros c g genre Hc Hg Hgenre.
    destruct (merge_left_retains Clean.tconst TitleRatings.tconst
                clean_title_basics_df title_ratings_df c Hc) as (j & Hj & <-).
    eexists. split.
    + apply list_elem_of_bind. exists j. split; [|done].
      unfold titles_rows_of. rewrite Hg.
      apply list_elem_of_fmap. by exists genre.
    + done.
Qed.

(** X8.  The number of rows of the result of [get_title_ratings]: a
    title without genres gives none; a title with g genres gives g rows
    when at most one rating row has its id, and m × g rows when m rating
    rows have its id.  So there are at least as many rows as clean
    titles with genres. *)
Theorem get_title_ratings_length (clean_title_basics_df : list Clean.row)
    (title_ratings_df : list TitleRatings.row) :
  let ratings_of c :=
    filter (λ r, TitleRatings.tconst r = Clean.tconst c) title_ratings_df in
  length (get_title_ratings clean_title_basics_df title_ratings_df)
  = sum_list
      ((λ c, match Clean.genres c with
             | Some g =>
                 (Nat.max (length (ratings_of c)) 1 * length (split_comma g))%nat
             | None => 0%nat
             end) <$> clean_title_basics_df)
  ∧ (length (filter (λ c, is_Some (Clean.genres c)) clean_title_basics_df)
     ≤ length (get_title_ratings clean_title_basics_df title_ratings_df))%nat.
Proof.
  intros ratings_of.
  assert (Hlen : length (get_title_ratings clean_title_basics_df
                           title_ratings_df)
    = sum_list
        ((λ c, match Clean.genres c with
               | Some g =>
                   (Nat.max (length (ratings_of c)) 1
                    * length (split_comma g))%nat
               | None => 0%nat
               end) <$> clean_title_basics_df)).
  { rewrite get_title_ratings_rows. unfold merge_left.
    induction clean_title_basics_df as [|c df IH]; [done|].
    rewrite bind_cons, bind_app, length_app, IH, fmap_cons.
    cbn [sum_list sum_list_with]. f_equal. fold (ratings_of c).
    assert (Hrows : ∀ j : Clean.row * option TitleRatings.row, j.1 = c →
      length (titles_rows_of j)
      = match Clean.genres c with
        | Some g => length (split_comma g)
        | None => 0%nat
        end).
    { intros j <-. unfold titles_rows_of.
      destruct (Clean.genres j.1); [by rewrite length_fmap|done]. }
    destruct (ratings_of c) as [|r rs].
    - rewrite bind_cons. change ([] ≫= titles_rows_of) with (@nil (Titles.row string)).
      rewrite app_nil_r, Hrows by done.
      destruct (Clean.genres c); simpl; lia.
    - rewrite list_fmap_bind.
      rewrite (length_bind_const _
                 (match Clean.genres c with
                  | Some g => length (split_comma g)
                  | None => 0%nat
                  end)) by (intros rating; by apply Hrows).
      destruct (Clean.genres c); simpl; lia. }
  split; [exact Hlen|]. rewrite Hlen. clear Hlen.
  induction clean_title_basics_df as [|c df IH]; [done|].
  rewrite filter_cons, fmap_cons. cbn [sum_list sum_list_with].
  destruct (Clean.genres c) as [g|] eqn:Hg.
  - rewrite decide_True by (by eexists). cbn [length].
    pose proof (split_length_pos ","%char g) as Hg1.
    pose proof (Nat.le_max_r (length (ratings_of c)) 1) as Hm1.
    fold split_comma in Hg1.
    assert (1 ≤ Nat.max (length (ratings_of c)) 1
                * length (split_comma g))%nat by nia.
    unfold id in *. lia.
  - rewrite decide_False by (by intros [? ?]). lia.
Qed.

(** ** Order of the groups *)

Lemma groupby_agg_keys_sorted {A B} (key : A → GroupKey) (f : list A → B) df :
  StronglySorted GroupKey_lt (groupby_agg key GroupKey_le f df).*1.
Proof.
  pose proof (groupby_agg_sorted GroupKey_le key f df) as Hsorted.
  pose proof (groupby_agg_NoDup key GroupKey_le f df) as Hnd.
  induction Hsorted as [|g l _ IH Hall]; [constructor|].
  rewrite fmap_cons in Hnd |- *. apply NoDup_cons in Hnd as [Hg Hnd].
  constructor; [by apply IH|].
  apply Forall_fmap, Forall_forall. intros g' Hg'. split.
  - rewrite Forall_forall in Hall. by apply Hall.
  - intros Heq. apply Hg. rewrite Heq. by apply list_elem_of_fmap_2.
Qed.

(** X9.  The rows of the result of [get_year_genre_resume] are in
    strictly ascending order of (startYear, genres): by year, and by genre
    within a year. *)
Theorem get_year_genre_resume_sorted (titles_data_df : list (Titles.row string)) :
  StronglySorted GroupKey_lt (get_year_genre_resume titles_data_df).*1
  ∧ StronglySorted (λ k1 k2, k1.1 ≤ k2.1)
      (get_year_genre_resume titles_data_df).*1.
Proof.
  pose proof (groupby_agg_keys_sorted resume_key RESUME_AGG_FUNCTIONS
                titles_data_df) as Hsorted.
  split; [exact Hsorted|].
  unfold get_year_genre_resume.
  induction Hsorted as [|k l _ IH Hall]; constructor; [done|].
  eapply Forall_impl; [exact Hall|].
  intros k' [[Hlt|[-> _]] _]; simpl in *; lia.
Qed.

(** ** The counts of [get_crew_data_by_group] *)

Lemma length_remove_dups_le `{EqDecision A} (l : list A) :
  (length (remove_dups l) ≤ length l)%nat.
Proof.
  induction l as [|x l IH]; [done|]. simpl.
  destruct (decide_rel elem_of x l); simpl; lia.
Qed.

Lemma length_remove_dups_size (l : list string) :
  length (remove_dups l) = size (list_to_set (C:=gset string) l).
Proof.
  rewrite <- (size_list_to_set (C:=gset string) (remove_dups l))
    by apply NoDup_remove_dups.
  f_equal. apply set_eq. intros x.
  by rewrite !elem_of_list_to_set, elem_of_remove_dups.
Qed.

Lemma dropna_Some {A B} (f : A → B) (l : list A) : dropna (Some ∘ f <$> l) = f <$> l.
Proof.
  unfold dropna. induction l as [|x l IH]; [done|].
  rewrite !fmap_cons. cbn [omap list_omap]. simpl. by f_equal.
Qed.

(** X10.  In the tables of [get_crew_data_by_group] the number of
    directors of a group is the number of different director ids on the
    rows of the group, at least 1 and at most the number of rows; the
    number of writers is the number of different writers cells that are
    present on the rows of the group, the cell taken as a whole. *)
Theorem crew_counts_distinct (df : list (Crew.row string string))
    (k : GroupKey) :
  let rows := filter (λ r, crew_key r = k) df in
  (∀ n, (k, n) ∈ groupby_agg crew_key GroupKey_le agg_n_directors df ↔
     k ∈ crew_key <$> df
     ∧ n = size (list_to_set (C:=gset string) (Crew.directors <$> rows)))
  ∧ (∀ n, (k, n) ∈ groupby_agg crew_key GroupKey_le agg_n_directors df →
      (1 ≤ n ≤ length rows)%nat)
  ∧ (∀ n, (k, n) ∈ groupby_agg crew_key GroupKey_le agg_n_writers df ↔
      k ∈ crew_key <$> df
      ∧ n = size (list_to_set (C:=gset string)
                    (omap Crew.writers rows)))
  ∧ (∀ n, (k, n) ∈ groupby_agg crew_key GroupKey_le agg_n_writers df →
      (n ≤ length rows)%nat).
Proof.
  intros rows.
  assert (Hdir : ∀ rs : list (Crew.row string string),
    agg_n_directors rs = length (remove_dups (Crew.directors <$> rs))).
  { intros rs. unfold agg_n_directors, nunique. by rewrite dropna_Some. }
  assert (Hwri : ∀ rs : list (Crew.row string string),
    agg_n_writers rs = length (remove_dups (omap Crew.writers rs))).
  { intros rs. unfold agg_n_writers, nunique, dropna.
    f_equal. f_equal. induction rs as [|r rs IH]; [done|].
    rewrite fmap_cons. cbn [omap list_omap]. simpl.
    destruct (Crew.writers r); by f_equal. }
  split_and!.
  - intros n. rewrite groupby_agg_elem. fold rows.
    by rewrite Hdir, length_remove_dups_size.
  - intros n [Hk ->]%groupby_agg_elem. fold rows. rewrite Hdir. split.
    + apply list_elem_of_fmap in Hk as (r & -> & Hr).
      assert (Hin : Crew.directors r ∈ remove_dups (Crew.directors <$> rows)).
      { apply elem_of_remove_dups, list_elem_of_fmap_2.
        by apply list_elem_of_filter. }
      destruct (remove_dups (Crew.directors <$> rows));
        [by apply elem_of_nil in Hin|simpl; lia].
    + etrans; [apply length_remove_dups_le|]. by rewrite length_fmap.
  - intros n. rewrite groupby_agg_elem. fold rows.
    by rewrite Hwri, length_remove_dups_size.
  - intros n [Hk ->]%groupby_agg_elem. fold rows. rewrite Hwri.
    etrans; [apply length_remove_dups_le|].
    clear. induction rows as [|r rs IH]; [done|].
    cbn [omap list_omap]. destruct (Crew.writers r); simpl; lia.
Qed.

(** ** [mapM] in the exception monad *)

Lemma mapM_Ok_inv {A B} (f : A → result B) (l : list A) (k : list B) :
  mapM f l = Ok k ↔ Forall2 (λ x y, f x = Ok y) l k.
Proof.
  revert k. induction l as [|x l IH]; intros k.
  - split.
    + intros [= <-]. constructor.
    + intros Hk. by inv Hk.
  - rewrite mapM_cons_result. split.
    + destruct (f x) as [y|e] eqn:Hx; [|done]. cbn [mbind result_bind].
      destruct (mapM f l) as [k'|e] eqn:Hl; [|done].
      intros [= <-]. constructor; [done|]. by apply IH.
    + intros Hk. inv Hk. rewrite H1. cbn [mbind result_bind].
      apply IH in H3. by rewrite H3.
Qed.

(** ** The tables of [get_crew_data_by_group] *)

Lemma get_crew_data_by_group_Ok_inv clean_title_basics_df title_crew_df d
    n_directors top_directors n_writers :
  get_crew_data_by_group clean_title_basics_df title_crew_df d
  = Ok (n_directors, top_directors, n_writers) ↔
    n_directors
    = groupby_agg crew_key GroupKey_le agg_n_directors
        (crew_exploded clean_title_basics_df title_crew_df)
    ∧ n_writers
      = groupby_agg crew_key GroupKey_le agg_n_writers
          (crew_exploded clean_title_basics_df title_crew_df)
    ∧ Forall2 (λ g t, pair g.1 <$> director_id2name g.2 d = Ok t)
        (groupby_agg crew_key GroupKey_le agg_top_directors
           (crew_exploded clean_title_basics_df title_crew_df))
        top_directors.
Proof.
  unfold get_crew_data_by_group. cbv zeta. rewrite <- mapM_Ok_inv.
  destruct (mapM _ _) as [top|e]; cbn [mbind result_bind]; split.
  - intros [= <- <- <-]. done.
  - intros (-> & -> & [= ->]). done.
  - done.
  - intros (_ & _ & [=]).
Qed.

Lemma top_directors_keys (d : gmap string string)
    (cells : list (GroupKey * mode_cell)) (names : list (GroupKey * string)) :
  Forall2 (λ g t, pair g.1 <$> director_id2name g.2 d = Ok t) cells names →
  names.*1 = cells.*1.
Proof.
  induction 1 as [|g t cells names Hg _ IH]; [done|].
  rewrite !fmap_cons, IH. f_equal.
  destruct (director_id2name g.2 d); simpl in Hg; [|done].
  by injection Hg as <-.
Qed.

Lemma crew_exploded_elem clean_title_basics_df title_crew_df r :
  r ∈ crew_exploded clean_title_basics_df title_crew_df ↔
    ∃ c crew g ds,
      c ∈ clean_title_basics_df ∧ crew ∈ title_crew_df
      ∧ TitleCrew.tconst crew = Clean.tconst c
      ∧ Clean.genres c = Some g ∧ TitleCrew.directors crew = Some ds
      ∧ Crew.genres r ∈ split_comma g ∧ Crew.directors r ∈ split_comma ds
      ∧ Crew.startYear r = Clean.startYear c
      ∧ Crew.writers r = TitleCrew.writers crew.
Proof.
  rewrite crew_exploded_rows, list_elem_of_bind. unfold crew_merged. split.
  - intros ([c o] & Hr & Hj).
    apply list_elem_of_filter in Hj as [_ Hj].
    apply list_elem_of_filter in Hj as [_ Hj].
    apply merge_left_elem in Hj as [Hc Ho]. cbn [fst snd] in *.
    unfold crew_rows_of, merged_directors, merged_writers in Hr.
    cbn [fst snd] in Hr.
    destruct (Clean.genres c) as [g|] eqn:Hg; [|by apply elem_of_nil in Hr].
    destruct o as [crew|]; cbn [mbind option_bind] in Hr;
      [|by apply elem_of_nil in Hr].
    destruct (TitleCrew.directors crew) as [ds|] eqn:Hds;
      [|by apply elem_of_nil in Hr].
    apply list_elem_of_bind in Hr as (genre & Hr & Hgenre).
    apply list_elem_of_bind in Hr as (director & Hr & Hdirector).
    apply list_elem_of_singleton in Hr as ->.
    destruct Ho as [Hcrew Hid].
    exists c, crew, g, ds. done.
  - intros (c & crew & g & ds & Hc & Hcrew & Hid & Hg & Hds & Hgenre
            & Hdirector & Hyear & Hwriters).
    exists (c, Some crew). split.
    + unfold crew_rows_of, merged_directors, merged_writers. cbn [fst snd].
      rewrite Hg. cbn [mbind option_bind]. rewrite Hds.
      apply list_elem_of_bind. exists (Crew.genres r). split; [|done].
      apply list_elem_of_bind. exists (Crew.directors r). split; [|done].
      apply list_elem_of_singleton. destruct r as [y g' d' w]. simpl in *.
      by rewrite Hyear, Hwriters.
    + apply list_elem_of_filter. split.
      { unfold merged_directors. simpl. by rewrite Hds. }
      apply list_elem_of_filter. split; [simpl; by rewrite Hg|].
      apply merge_left_elem. done.
Qed.

Lemma get_title_ratings_keys clean_title_basics_df title_ratings_df k :
  k ∈ resume_key <$> get_title_ratings clean_title_basics_df title_ratings_df ↔
    ∃ c g, c ∈ clean_title_basics_df ∧ Clean.genres c = Some g
           ∧ k.1 = Clean.startYear c ∧ k.2 ∈ split_comma g.
Proof.
  rewrite get_title_ratings_rows, list_elem_of_fmap. split.
  - intros (r & -> & (j & Hr & Hj)%list_elem_of_bind).
    apply merge_left_elem in Hj as [Hc _]. unfold titles_rows_of in Hr.
    destruct (Clean.genres j.1) as [g|] eqn:Hg; [|by apply elem_of_nil in Hr].
    apply list_elem_of_fmap in Hr as (genre & -> & Hgenre).
    by exists j.1, g.
  - intros (c & g & Hc & Hg & Hyear & Hgenre).
    destruct (merge_left_retains Clean.tconst TitleRatings.tconst
                clean_title_basics_df title_ratings_df c Hc) as (j & Hj & <-).
    eexists. split; [|apply list_elem_of_bind; exists j; split; [|done]].
    2:{ unfold titles_rows_of. rewrite Hg.
        apply list_elem_of_fmap. by exists k.2. }
    destruct k as [y genre]. simpl in *. by rewrite Hyear.
Qed.

Lemma crew_keys_in_resume clean_title_basics_df title_crew_df title_ratings_df k :
  k ∈ crew_key <$> crew_exploded clean_title_basics_df title_crew_df →
  k ∈ resume_key <$> get_title_ratings clean_title_basics_df title_ratings_df.
Proof.
  intros (r & -> & Hr)%list_elem_of_fmap.
  apply crew_exploded_elem in Hr
    as (c & crew & g & ds & Hc & _ & _ & Hg & _ & Hgenre & _ & Hyear & _).
  apply get_title_ratings_keys. by exists c, g.
Qed.

(** X11.  The three tables returned by [get_crew_data_by_group] have the
    same index, without duplicate, and every key of it is a key of the
    result of [get_year_genre_resume] for the same clean titles: the left
    merges of [run_pipeline] find a row of the resume for every group of
    the crew tables. *)
Theorem crew_tables_index (clean_title_basics_df : list Clean.row)
    (title_crew_df : list TitleCrew.row)
    (title_ratings_df : list TitleRatings.row)
    (director_id2name_dict : gmap string string)
    (n_directors : list (GroupKey * nat))
    (top_directors : list (GroupKey * string))
    (n_writers : list (GroupKey * nat)) :
  get_crew_data_by_group clean_title_basics_df title_crew_df
    director_id2name_dict
  = Ok (n_directors, top_directors, n_writers) →
  top_directors.*1 = n_directors.*1
  ∧ n_writers.*1 = n_directors.*1
  ∧ NoDup n_directors.*1
  ∧ (∀ k, k ∈ n_directors.*1 →
       k ∈ (get_year_genre_resume
              (get_title_ratings clean_title_basics_df title_ratings_df)).*1).
Proof.
  intros (-> & -> & Htop)%get_crew_data_by_group_Ok_inv.
  apply top_directors_keys in Htop. split_and!.
  - by rewrite Htop, !groupby_agg_keys.
  - by rewrite !groupby_agg_keys.
  - apply groupby_agg_NoDup.
  - intros k Hk. unfold get_year_genre_resume.
    rewrite groupby_agg_keys in Hk. rewrite groupby_agg_keys.
    apply (groups_of_keys _ _ _ _ (groupby_groups _ _ _)) in Hk.
    apply (groups_of_keys _ _ _ _ (groupby_groups _ _ _)).
    by eapply crew_keys_in_resume.
Qed.

Lemma crew_tables_index_witness :
  let clean := [Clean.Row "t1" 2015 (Some "Drama,Comedy") None;
                Clean.Row "t2" 2016 (Some "Drama") None] in
  let crew := [TitleCrew.Row "t1" (Some "d1") (Some "w1")] in
  let ratings := [TitleRatings.Row "t2" (Some (7 # 1)%Q) (Some 5)] in
  let d : gmap string string := <["d1" := "Alice"]> ∅ in
  get_crew_data_by_group clean crew d
  = Ok ([((2015, "Comedy"), 1%nat); ((2015, "Drama"), 1%nat)],
        [((2015, "Comedy"), "Alice"); ((2015, "Drama"), "Alice")],
        [((2015, "Comedy"), 1%nat); ((2015, "Drama"), 1%nat)])
  ∧ (∀ k, k ∈ [(2015, "Comedy"); (2015, "Drama")] →
       k ∈ (get_year_genre_resume (get_title_ratings clean ratings)).*1).
Proof.
  intros clean crew ratings d.
  assert (Hok : get_crew_data_by_group clean crew d
    = Ok ([((2015, "Comedy"), 1%nat); ((2015, "Drama"), 1%nat)],
          [((2015, "Comedy"), "Alice"); ((2015, "Drama"), "Alice")],
          [((2015, "Comedy"), 1%nat); ((2015, "Drama"), 1%nat)]))
    by reflexivity.
  split; [exact Hok|].
  exact (proj2 (proj2 (proj2 (crew_tables_index clean crew ratings d _ _ _ Hok)))).
Defined.

(** ** [mode] is never empty *)

Lemma mode_nonempty xs : xs ≠ [] → mode xs ≠ [].
Proof.
  intros Hxs Hmode.
  set (counts := flip occurrences xs <$> remove_dups xs).
  assert (Hcounts : counts ≠ []).
  { unfold counts. destruct xs as [|x xs]; [done|].
    assert (Hin : x ∈ remove_dups (x :: xs))
      by (apply elem_of_remove_dups; left).
    destruct (remove_dups (x :: xs)); [by apply elem_of_nil in Hin|done]. }
  apply max_list_elem_of in Hcounts.
  apply list_elem_of_fmap in Hcounts as (y & Hy & Hin).
  assert (Hmem : y ∈ mode xs).
  { unfold mode. rewrite merge_sort_Permutation.
    apply list_elem_of_filter. split; [|done]. fold counts. by rewrite Hy. }
  rewrite Hmode in Hmem. by apply elem_of_nil in Hmem.
Qed.

Lemma mode_ids_agg_cell ids : mode_ids (agg_cell ids) = ids.
Proof. by destruct ids as [|id [|id' ids]]. Qed.

(** X12.  Every cell of the top-directors table holds at least one id;
    each of its ids is the director of some row of the group, and no
    director of the group is on more rows of the group than it. *)
Theorem top_directors_cell_nonempty (df : list (Crew.row string string))
    (k : GroupKey) (cell : mode_cell) :
  (k, cell) ∈ groupby_agg crew_key GroupKey_le agg_top_directors df →
  let directors := Crew.directors <$> filter (λ r, crew_key r = k) df in
  mode_ids cell ≠ []
  ∧ ∀ id, id ∈ mode_ids cell →
       (∃ r, r ∈ df ∧ crew_key r = k ∧ Crew.directors r = id)
       ∧ ∀ id', (occurrences id' directors ≤ occurrences id directors)%nat.
Proof.
  intros [Hk ->]%groupby_agg_elem directors.
  unfold agg_top_directors. rewrite mode_ids_agg_cell. fold directors.
  split.
  - apply mode_nonempty. unfold directors.
    apply list_elem_of_fmap in Hk as (r & -> & Hr).
    assert (Hin : r ∈ filter (λ r', crew_key r' = crew_key r) df)
      by (by apply list_elem_of_filter).
    destruct (filter _ df); [by apply elem_of_nil in Hin|done].
  - intros id [Hid Hmax]%mode_elem. split.
    + apply list_elem_of_fmap in Hid as (r & -> & Hr).
      apply list_elem_of_filter in Hr as [Hkey Hr]. by exists r.
    + intros id'. destruct (decide (id' ∈ directors)) as [Hin|Hnin].
      * by apply Hmax.
      * rewrite occurrences_pos in Hnin. lia.
Qed.

Lemma top_directors_cell_nonempty_witness :
  let df := [Crew.Row 2015 "Drama" "d2" None; Crew.Row 2015 "Drama" "d1" None;
             Crew.Row 2015 "Drama" "d2" None; Crew.Row 2016 "Drama" "d3" None] in
  ((2015, "Drama"), Scalar "d2")
    ∈ groupby_agg crew_key GroupKey_le agg_top_directors df
  ∧ mode_ids (Scalar "d2") ≠ []
  ∧ ∀ id' : string,
      (occurrences id'
         (Crew.directors
            <$> filter (λ r : Crew.row string string,
                          crew_key r = (2015%Z, "Drama")) df)
       ≤ 2)%nat.
Proof.
  intros df.
  assert (Hin : ((2015, "Drama"), Scalar "d2")
                  ∈ groupby_agg crew_key GroupKey_le agg_top_directors df).
  { vm_compute. left. }
  destruct (top_directors_cell_nonempty df (2015, "Drama") (Scalar "d2") Hin)
    as [Hne Hids].
  split; [exact Hin|]. split; [exact Hne|].
  intros id'. destruct (Hids "d2") as [_ Hmax]; [left|]. exact (Hmax id').
Defined.

(** X13.  When every id of every cell of the top-directors table is in
    the lookup, [get_crew_data_by_group] returns its three tables: the
    counts as aggregated and, for every group, the names of its top
    directors joined by ["; "] in the order of their ids. *)
Theorem get_crew_data_by_group_Ok (clean_title_basics_df : list Clean.row)
    (title_crew_df : list TitleCrew.row)
    (director_id2name_dict : gmap string string) :
  (∀ k cell id,
     (k, cell) ∈ groupby_agg crew_key GroupKey_le agg_top_directors
                   (crew_exploded clean_title_basics_df title_crew_df) →
     id ∈ mode_ids cell → is_Some (director_id2name_dict !! id)) →
  let df := crew_exploded clean_title_basics_df title_crew_df in
  ∃ top_directors,
    get_crew_data_by_group clean_title_basics_df title_crew_df
      director_id2name_dict
    = Ok (groupby_agg crew_key GroupKey_le agg_n_directors df,
          top_directors,
          groupby_agg crew_key GroupKey_le agg_n_writers df)
    ∧ Forall2
        (λ g t, t.1 = g.1
                ∧ ∃ names,
                    Forall2 (λ id name, director_id2name_dict !! id = Some name)
                      (mode_ids g.2) names
                    ∧ t.2 = String.concat "; " names)
        (groupby_agg crew_key GroupKey_le agg_top_directors df)
        top_directors.
Proof.
  intros Hknown df.
  set (cells := groupby_agg crew_key GroupKey_le agg_top_directors df) in *.
  assert (Hall : ∀ g, g ∈ cells →
    ∃ names, Forall2 (λ id name, director_id2name_dict !! id = Some name)
               (mode_ids g.2) names
             ∧ director_id2name g.2 director_id2name_dict
               = Ok (String.concat "; " names)).
  { intros [k cell] Hg. cbn [snd].
    destruct (ids_present_or_first_absent director_id2name_dict
                (mode_ids cell))
      as [[names Hnames]|(pre & id & post & Hids & _ & Hid)].
    - exists names. split; [done|].
      destruct cell as [id|ids]; cbn [mode_ids] in Hnames.
      + rewrite director_id2name_Scalar.
        inv Hnames. inv H3. by rewrite H1.
      + by apply director_id2name_NdArray.
    - destruct (Hknown k cell id Hg) as [name Hname]; [|congruence].
      rewrite Hids. apply elem_of_app. right. left. }
  assert (Hex : ∀ l : list (GroupKey * mode_cell),
    (∀ g, g ∈ l → g ∈ cells) →
    ∃ top,
      Forall2 (λ g t, pair g.1 <$> director_id2name g.2 director_id2name_dict
                      = Ok t) l top
      ∧ Forall2
          (λ g t, t.1 = g.1
                  ∧ ∃ names,
                      Forall2
                        (λ id name, director_id2name_dict !! id = Some name)
                        (mode_ids g.2) names
                      ∧ t.2 = String.concat "; " names) l top).
  { induction l as [|g l IH]; intros Hl; [by exists []|].
    destruct IH as (top & H1 & H2).
    { intros g' Hg'. apply Hl. by right. }
    destruct (Hall g) as (names & Hnames & Hname); [apply Hl; by left|].
    exists ((g.1, String.concat "; " names) :: top). split.
    - constructor; [|done]. by rewrite Hname.
    - constructor; [|exact H2]. cbn beta. cbn [fst snd].
      split; [reflexivity|]. exists names. split; [exact Hnames|reflexivity]. }
  destruct (Hex cells) as (top & H1 & H2); [done|].
  exists top. split; [|exact H2].
  apply get_crew_data_by_group_Ok_inv. done.
Qed.

Lemma get_crew_data_by_group_Ok_witness :
  let clean := [Clean.Row "t1" 2015 (Some "Drama,Comedy") None;
                Clean.Row "t2" 2016 (Some "Drama") None] in
  let crew := [TitleCrew.Row "t1" (Some "d1") (Some "w1")] in
  let d : gmap string string := <["d1" := "Alice"]> ∅ in
  (∀ k cell id,
     (k, cell) ∈ groupby_agg crew_key GroupKey_le agg_top_directors
                   (crew_exploded clean crew) →
     id ∈ mode_ids cell → is_Some (d !! id))
  ∧ ∃ top_directors,
      get_crew_data_by_group clean crew d
      = Ok (groupby_agg crew_key GroupKey_le agg_n_directors
              (crew_exploded clean crew),
            top_directors,
            groupby_agg crew_key GroupKey_le agg_n_writers
              (crew_exploded clean crew)).
Proof.
  intros clean crew d.
  assert (Hknown : ∀ k cell id,
     (k, cell) ∈ groupby_agg crew_key GroupKey_le agg_top_directors
                   (crew_exploded clean crew) →
     id ∈ mode_ids cell → is_Some (d !! id)).
  { intros k cell id Hin Hid.
    assert (Htable : groupby_agg crew_key GroupKey_le agg_top_directors
                       (crew_exploded clean crew)
                     = [((2015, "Comedy"), Scalar "d1");
                        ((2015, "Drama"), Scalar "d1")]) by reflexivity.
    rewrite Htable in Hin.
    assert (Hcell : cell = Scalar "d1").
    { apply elem_of_cons in Hin as [Heq|Hin]; [congruence|].
      apply list_elem_of_singleton in Hin. congruence. }
    rewrite Hcell in Hid. apply list_elem_of_singleton in Hid as ->.
    by exists "Alice". }
  split; [exact Hknown|].
  destruct (get_crew_data_by_group_Ok clean crew d Hknown) as (top & Hok & _).
  by exists top.
Defined.

(** ** The file written by [run_pipeline] *)

Lemma merge_index_lookup {L R} (left : list (GroupKey * L))
    (right : list (GroupKey * R)) :
  NoDup right.*1 →
  merge_index left right
  = (λ l, (l.1, (l.2, lookup_index l.1 right))) <$> left.
Proof.
  intros Hnd. unfold merge_index.
  rewrite (merge_left_unique fst fst left right Hnd).
  by rewrite <- list_fmap_compose.
Qed.

Lemma resume_numVotes_Some df k row :
  (k, row) ∈ get_year_genre_resume df → is_Some (Resume.numVotes row).
Proof.
  unfold get_year_genre_resume. intros [_ ->]%groupby_agg_elem.
  by eexists.
Qed.

Lemma cast_without_writers_Ok n_directors top_directors
    (g : GroupKey * Resume.row) :
  is_Some (Resume.numVotes g.2) →
  cast_without_writers
    (g.1, (g.2, lookup_index g.1 n_directors, lookup_index g.1 top_directors))
  = Ok (output_row n_directors top_directors g).
Proof.
  intros [v Hv]. unfold cast_without_writers, cast_columns, output_row.
  cbn [rename_columns fst snd Merged.numVotes Merged.startYear Merged.genres
         Merged.runtimeMinutes Merged.averageRating Merged.numDirectors
         Merged.topDirectors].
  rewrite Hv. reflexivity.
Qed.

Lemma pipeline_output (year_genre_resume : list (GroupKey * Resume.row))
    (n_directors n_writers : list (GroupKey * nat))
    (top_directors : list (GroupKey * string)) :
  NoDup n_writers.*1 → NoDup n_directors.*1 → NoDup top_directors.*1 →
  Forall (λ g, is_Some (Resume.numVotes g.2)) year_genre_resume →
  mapM cast_columns
    (rename_columns <$>
       merge_index
         (merge_index (merge_index year_genre_resume n_writers) n_directors)
         top_directors)
  = Ok (output_row n_directors top_directors <$> year_genre_resume).
Proof.
  intros Hw Hd Ht Hvotes.
  rewrite (output_without_writers _ _ _ _ Hw).
  rewrite (merge_index_lookup _ top_directors Ht).
  rewrite (merge_index_lookup _ n_directors Hd).
  rewrite <- list_fmap_compose, mapM_fmap_result.
  apply mapM_Ok_inv, Forall2_fmap_r, Forall_Forall2_diag.
  eapply Forall_impl; [exact Hvotes|].
  intros g Hg. cbn [compose fst snd].
  by apply cast_without_writers_Ok.
Qed.

Lemma run_pipeline_Ok (DATASET_URLS : datasets)
    (disk : gmap string (list Output.row)) n_directors top_directors n_writers :
  get_crew_data_by_group
    (process_title_basics_df (TITLE_BASICS DATASET_URLS))
    (TITLE_CREW DATASET_URLS)
    (get_id2name_dict (NAME_BASICS DATASET_URLS))
  = Ok (n_directors, top_directors, n_writers) →
  run_pipeline DATASET_URLS disk
  = (Ok (),
     <[OUTPUT_FILE_PATH :=
         output_row n_directors top_directors
           <$> get_year_genre_resume
                 (get_title_ratings
                    (process_title_basics_df (TITLE_BASICS DATASET_URLS))
                    (TITLE_RATINGS DATASET_URLS))]> disk).
Proof.
  intros Hcrew. rewrite run_pipeline_unfold. cbv zeta. rewrite Hcrew.
  apply get_crew_data_by_group_Ok_inv in Hcrew as (Hnd & Hnw & Htop).
  apply top_directors_keys in Htop.
  rewrite pipeline_output; [done| | | |].
  - rewrite Hnw. apply groupby_agg_NoDup.
  - rewrite Hnd. apply groupby_agg_NoDup.
  - rewrite Htop. apply groupby_agg_NoDup.
  - apply Forall_forall. intros [k row] Hg. by eapply resume_numVotes_Some.
Qed.

(** ** Invariants of the written file *)

Lemma process_title_basics_df_elem df c :
  c ∈ process_title_basics_df df →
  2015 ≤ Clean.startYear c ≤ 2020
  ∧ ∃ t, t ∈ df ∧ TitleBasics.titleType t = Some "movie"
         ∧ TitleBasics.startYear t = Some (Clean.startYear c)
         ∧ TitleBasics.genres t = Clean.genres c.
Proof.
  rewrite process_title_basics_df_filter, list_elem_of_omap.
  intros (t & Ht & Hc). apply list_elem_of_filter in Ht as [Hkept Ht].
  destruct Hkept as (y & Hy & Htype & Hrange).
  unfold used_columns in Hc. rewrite Hy in Hc. injection Hc as <-.
  simpl. split; [done|]. by exists t.
Qed.

(** X16.  The file of a successful run has its rows in strictly
    ascending order of (startYear, genres), so no key twice; every row has
    a year from 2015 to 2020 and a genre that is one of the genres of a
    movie of that year in the title table. *)
Theorem run_pipeline_file_invariants (DATASET_URLS : datasets)
    (disk disk' : gmap string (list Output.row)) :
  run_pipeline DATASET_URLS disk = (Ok (), disk') →
  ∃ output,
    disk' = <[OUTPUT_FILE_PATH := output]> disk
    ∧ StronglySorted GroupKey_lt (output_key <$> output)
    ∧ NoDup (output_key <$> output)
    ∧ Forall
        (λ r, 2015 ≤ Output.startYear r ≤ 2020
              ∧ ∃ t g, t ∈ TITLE_BASICS DATASET_URLS
                       ∧ TitleBasics.titleType t = Some "movie"
                       ∧ TitleBasics.startYear t = Some (Output.startYear r)
                       ∧ TitleBasics.genres t = Some g
                       ∧ Output.genres r ∈ split_comma g)
        output.
Proof.
  destruct (get_crew_data_by_group
              (process_title_basics_df (TITLE_BASICS DATASET_URLS))
              (TITLE_CREW DATASET_URLS)
              (get_id2name_dict (NAME_BASICS DATASET_URLS)))
    as [[[n_directors top_directors] n_writers]|e'] eqn:Hcrew.
  2:{ rewrite run_pipeline_unfold. cbv zeta. by rewrite Hcrew. }
  rewrite (run_pipeline_Ok _ disk _ _ _ Hcrew). intros [= <-].
  eexists. split; [done|].
  assert (Hkeys : ∀ l : list (GroupKey * Resume.row),
    output_key <$> (output_row n_directors top_directors <$> l) = l.*1).
  { intros l. rewrite <- list_fmap_compose.
    apply list_fmap_ext. by intros _ [[y g] row] _. }
  rewrite Hkeys.
  pose proof (groupby_agg_keys_sorted resume_key RESUME_AGG_FUNCTIONS
                (get_title_ratings
                   (process_title_basics_df (TITLE_BASICS DATASET_URLS))
                   (TITLE_RATINGS DATASET_URLS))) as Hsorted.
  split_and!.
  - exact Hsorted.
  - apply groupby_agg_NoDup.
  - apply Forall_fmap, Forall_forall. intros [k row] Hg.
    assert (Hk : k ∈ (get_year_genre_resume
                        (get_title_ratings
                           (process_title_basics_df (TITLE_BASICS DATASET_URLS))
                           (TITLE_RATINGS DATASET_URLS))).*1).
    { apply list_elem_of_fmap. by exists (k, row). }
    unfold get_year_genre_resume in Hk. rewrite groupby_agg_keys in Hk.
    apply (groups_of_keys _ _ _ _ (groupby_groups _ _ _)) in Hk.
    apply get_title_ratings_keys in Hk as (c & g & Hc & Hg' & Hyear & Hgenre).
    apply process_title_basics_df_elem in Hc as [Hrange (t & Ht & Htype & Hy & Hgen)].
    cbn [compose output_row Output.startYear Output.genres fst snd].
    rewrite Hyear. split; [done|].
    exists t, g. split_and!; [done..| |done]. by rewrite Hgen.
Qed.

Lemma run_pipeline_file_invariants_witness :
  let DATASET_URLS :=
    {| NAME_BASICS := [NameBasics.Row "d1" "Alice"];
       TITLE_BASICS :=
         [TitleBasics.Row "t2" (Some "movie") (Some 2016) (Some "Horror,Drama")
            None;
          TitleBasics.Row "t1" (Some "movie") (Some 2015) (Some "Drama")
            (Some (100 # 1)%Q)];
       TITLE_RATINGS := [TitleRatings.Row "t1" (Some (15 # 2)%Q) (Some 10)];
       TITLE_CREW := [TitleCrew.Row "t1" (Some "d1") (Some "w1,w2")] |} in
  let output :=
    [Output.Row 2015 "Drama" (Some (100 # 1)%Q) (Some (15 # 2)%Q)
       10 10 1 (Some "Alice");
     Output.Row 2016 "Drama" None None 0 0 0 None;
     Output.Row 2016 "Horror" None None 0 0 0 None] in
  run_pipeline DATASET_URLS ∅ = (Ok (), {[ OUTPUT_FILE_PATH := output ]})
  ∧ ∃ output',
      ({[ OUTPUT_FILE_PATH := output ]} : gmap string (list Output.row))
      = <[OUTPUT_FILE_PATH := output']> ∅
      ∧ StronglySorted GroupKey_lt (output_key <$> output')
      ∧ NoDup (output_key <$> output').
Proof.
  intros DATASET_URLS output.
  assert (Hrun : run_pipeline DATASET_URLS ∅
                 = (Ok (), {[ OUTPUT_FILE_PATH := output ]})) by reflexivity.
  split; [exact Hrun|].
  destruct (run_pipeline_file_invariants DATASET_URLS ∅ _ Hrun)
    as (output' & Hdisk & Hsorted & Hnd & _).
  by exists output'.
Defined.

(** ** Groups without crew *)

Lemma lookup_index_None {V} k (table : list (GroupKey * V)) :
  lookup_index k table = None ↔ k ∉ table.*1.
Proof.
  unfold lookup_index. rewrite fmap_None. split.
  - intros Hhead ([k' v] & -> & Hin)%list_elem_of_fmap.
    assert (Hf : (k', v) ∈ filter (λ r, r.1 = (k', v).1) table)
      by (by apply list_elem_of_filter).
    destruct (filter _ table); [by apply elem_of_nil in Hf|done].
  - intros Hk. destruct (filter (λ r, r.1 = k) table) as [|r rs] eqn:Hf;
      [done|].
    assert (Hr : r ∈ filter (λ r, r.1 = k) table) by (rewrite Hf; left).
    apply list_elem_of_filter in Hr as [<- Hr].
    destruct Hk. by apply list_elem_of_fmap_2.
Qed.

Lemma lookup_index_Some {V} k v (table : list (GroupKey * V)) :
  NoDup table.*1 → (k, v) ∈ table → lookup_index k table = Some v.
Proof.
  intros Hnd Hin. unfold lookup_index.
  assert (Hf : (k, v) ∈ filter (λ r, r.1 = k) table)
    by (by apply list_elem_of_filter).
  pose proof (filter_key_NoDup fst table k Hnd) as Hlen.
  destruct (filter (λ r, r.1 = k) table) as [|r [|r' rs]];
    [by apply elem_of_nil in Hf| |simpl in Hlen; lia].
  by apply list_elem_of_singleton in Hf as <-.
Qed.

(** The two crew columns of [output_row], by whether the key is a key of
    the exploded crew frame. *)
Lemma output_row_crew (DATASET_URLS : datasets)
    (n_directors : list (GroupKey * nat))
    (top_directors : list (GroupKey * string))
    (n_writers : list (GroupKey * nat)) (g : GroupKey * Resume.row) :
  get_crew_data_by_group
    (process_title_basics_df (TITLE_BASICS DATASET_URLS))
    (TITLE_CREW DATASET_URLS)
    (get_id2name_dict (NAME_BASICS DATASET_URLS))
  = Ok (n_directors, top_directors, n_writers) →
  let crew_keys :=
    crew_key <$> crew_exploded
                   (process_title_basics_df (TITLE_BASICS DATASET_URLS))
                   (TITLE_CREW DATASET_URLS) in
  let row := output_row n_directors top_directors g in
  (g.1 ∉ crew_keys →
     Output.numDirectors row = 0 ∧ Output.topDirectors row = None)
  ∧ (g.1 ∈ crew_keys →
       ∃ n name,
         (g.1, n) ∈ n_directors ∧ (g.1, name) ∈ top_directors
         ∧ (1 ≤ n)%nat
         ∧ Output.numDirectors row = Z.of_nat n
         ∧ Output.topDirectors row = Some name).
Proof.
  intros Hcrew crew_keys row.
  apply get_crew_data_by_group_Ok_inv in Hcrew as (Hnd & _ & Htop).
  apply top_directors_keys in Htop.
  assert (Hkeys : ∀ k, k ∈ n_directors.*1 ↔ k ∈ crew_keys).
  { intros k. rewrite Hnd, groupby_agg_keys.
    apply groups_of_keys, groupby_groups. }
  assert (Hkeys' : ∀ k, k ∈ top_directors.*1 ↔ k ∈ crew_keys).
  { intros k. rewrite Htop, groupby_agg_keys.
    apply groups_of_keys, groupby_groups. }
  unfold row, output_row. cbn [Output.numDirectors Output.topDirectors].
  split.
  - intros Hk.
    rewrite (proj2 (lookup_index_None g.1 n_directors))
      by (by rewrite Hkeys).
    rewrite (proj2 (lookup_index_None g.1 top_directors))
      by (by rewrite Hkeys').
    done.
  - intros Hk.
    pose proof (proj2 (Hkeys g.1) Hk) as Hin.
    pose proof (proj2 (Hkeys' g.1) Hk) as Hin'.
    apply list_elem_of_fmap in Hin as ([k n] & Hkn & Hin).
    apply list_elem_of_fmap in Hin' as ([k' name] & Hkn' & Hin').
    simpl in Hkn, Hkn'. subst k k'.
    exists n, name. split; [done|]. split; [done|].
    rewrite (lookup_index_Some g.1 n n_directors),
      (lookup_index_Some g.1 name top_directors);
      [|by rewrite Htop; apply groupby_agg_NoDup|done
       |by rewrite Hnd; apply groupby_agg_NoDup|done].
    split; [|done].
    rewrite Hnd in Hin. apply groupby_agg_elem in Hin as [Hk' ->].
    unfold agg_n_directors, nunique. rewrite dropna_Some.
    apply list_elem_of_fmap in Hk' as (r & Hr & Hrin).
    assert (Hd : Crew.directors r
                 ∈ remove_dups
                     (Crew.directors
                        <$> filter (λ r, crew_key r = g.1)
                              (crew_exploded
                                 (process_title_basics_df
                                    (TITLE_BASICS DATASET_URLS))
                                 (TITLE_CREW DATASET_URLS)))).
    { apply elem_of_remove_dups, list_elem_of_fmap_2.
      by apply list_elem_of_filter. }
    destruct (remove_dups _); [by apply elem_of_nil in Hd|simpl; lia].
Qed.

(** X17.  In the file of a successful run, whose keys are the keys of
    the resume in their order, a row whose group has no row in the exploded
    crew frame (no title of the group has a crew row with directors) has
    numDirectors 0 and no topDirectors; a row whose group has one has the
    count of the group in [n_directors], at least 1, and the names of the
    group in [top_directors]. *)
Theorem run_pipeline_groups_without_crew (DATASET_URLS : datasets)
    (disk disk' : gmap string (list Output.row)) :
  run_pipeline DATASET_URLS disk = (Ok (), disk') →
  let clean_title_basics :=
    process_title_basics_df (TITLE_BASICS DATASET_URLS) in
  let crew_keys :=
    crew_key <$> crew_exploded clean_title_basics (TITLE_CREW DATASET_URLS) in
  ∃ output n_directors top_directors n_writers,
    get_crew_data_by_group clean_title_basics (TITLE_CREW DATASET_URLS)
      (get_id2name_dict (NAME_BASICS DATASET_URLS))
    = Ok (n_directors, top_directors, n_writers)
    ∧ disk' = <[OUTPUT_FILE_PATH := output]> disk
    ∧ output_key <$> output
      = (get_year_genre_resume
           (get_title_ratings clean_title_basics
              (TITLE_RATINGS DATASET_URLS))).*1
    ∧ Forall
        (λ r,
           (output_key r ∉ crew_keys →
              Output.numDirectors r = 0 ∧ Output.topDirectors r = None)
           ∧ (output_key r ∈ crew_keys →
                ∃ n name,
                  (output_key r, n) ∈ n_directors
                  ∧ (output_key r, name) ∈ top_directors
                  ∧ (1 ≤ n)%nat
                  ∧ Output.numDirectors r = Z.of_nat n
                  ∧ Output.topDirectors r = Some name))
        output.
Proof.
  intros Hrun clean crew_keys.
  destruct (get_crew_data_by_group clean (TITLE_CREW DATASET_URLS)
              (get_id2name_dict (NAME_BASICS DATASET_URLS)))
    as [[[n_directors top_directors] n_writers]|e'] eqn:Hcrew.
  2:{ rewrite run_pipeline_unfold in Hrun. cbv zeta in Hrun.
      fold clean in Hrun. by rewrite Hcrew in Hrun. }
  rewrite (run_pipeline_Ok _ disk _ _ _ Hcrew) in Hrun.
  injection Hrun as <-.
  eexists _, n_directors, top_directors, n_writers.
  split; [done|]. split; [done|]. split.
  - rewrite <- list_fmap_compose. apply list_fmap_ext.
    by intros _ [[y g] row] _.
  - apply Forall_fmap, Forall_forall. intros g Hg.
    destruct (output_row_crew DATASET_URLS _ _ _ g Hcrew) as [Hnone Hsome].
    assert (Hkey : output_key (output_row n_directors top_directors g) = g.1)
      by (by destruct g as [[y genre] row]).
    cbn [compose]. rewrite Hkey. split; [exact Hnone|].
    intros Hk. destruct (Hsome Hk) as (n & name & Hn & Hname & Hge & Hnd & Htd).
    by exists n, name.
Qed.

Lemma run_pipeline_groups_without_crew_witness :
  let DATASET_URLS :=
    {| NAME_BASICS := [NameBasics.Row "d1" "Alice"];
       TITLE_BASICS :=
         [TitleBasics.Row "t1" (Some "movie") (Some 2015) (Some "Drama")
            (Some (100 # 1)%Q);
          TitleBasics.Row "t2" (Some "movie") (Some 2016) (Some "Horror")
            None];
       TITLE_RATINGS := [TitleRatings.Row "t1" (Some (15 # 2)%Q) (Some 10)];
       TITLE_CREW := [TitleCrew.Row "t1" (Some "d1") (Some "w1,w2");
                      TitleCrew.Row "t2" None (Some "w3")] |} in
  let output :=
    [Output.Row 2015 "Drama" (Some (100 # 1)%Q) (Some (15 # 2)%Q)
       10 10 1 (Some "Alice");
     Output.Row 2016 "Horror" None None 0 0 0 None] in
  let crew_keys :=
    crew_key <$> crew_exploded
                   (process_title_basics_df (TITLE_BASICS DATASET_URLS))
                   (TITLE_CREW DATASET_URLS) in
  run_pipeline DATASET_URLS ∅ = (Ok (), {[ OUTPUT_FILE_PATH := output ]})
  ∧ ∃ output' : list Output.row,
      ({[ OUTPUT_FILE_PATH := output ]} : gmap string (list Output.row))
      = <[OUTPUT_FILE_PATH := output']> ∅
      ∧ Forall
          (λ r : Output.row,
             (¬ (output_key r ∈ crew_keys) →
                Output.numDirectors r = 0 ∧ Output.topDirectors r = None)
             ∧ (output_key r ∈ crew_keys →
                  1 ≤ Output.numDirectors r
                  ∧ is_Some (Output.topDirectors r)))
          output'.
Proof.
  intros DATASET_URLS output crew_keys.
  assert (Hrun : run_pipeline DATASET_URLS ∅
                 = (Ok (), {[ OUTPUT_FILE_PATH := output ]})) by reflexivity.
  split; [exact Hrun|].
  destruct (run_pipeline_groups_without_crew DATASET_URLS ∅ _ Hrun)
    as (output' & n_directors & top_directors & n_writers
        & _ & Hdisk & _ & Hrows).
  exists output'. split; [exact Hdisk|].
  eapply Forall_impl; [exact Hrows|].
  intros r [Hnone Hsome]. split; [exact Hnone|].
  intros Hk. destruct (Hsome Hk) as (n & name & _ & _ & Hn & -> & ->).
  split; [lia|by eexists].
Defined.

(** ** Groups of one row *)

Lemma Qred_div_1 (q : Q) : Qred (q / inject_Z 1) = Qred q.
Proof. apply Qred_complete. field. Qed.

Lemma agg_mean_singleton (x : option Q) : agg_mean [x] = Qred <$> x.
Proof.
  destruct x as [q|]; [|done]. unfold agg_mean, dropna.
  cbn [omap list_omap id length Qsum foldr fmap option_fmap option_map].
  f_equal. change (Z.of_nat 1) with 1. rewrite Qred_div_1.
  apply Qred_complete. ring.
Qed.

Lemma agg_sum_singleton (x : option Z) : agg_sum [x] = Some (default 0 x).
Proof. destruct x as [v|]; unfold agg_sum; simpl; f_equal; lia. Qed.

(** X18.  A group of [get_year_genre_resume] that has a single row gets
    the measures of that row: its runtimeMinutes and averageRating (as
    reduced fractions) when they are present, and its numVotes, 0 when
    they are missing. *)
Theorem get_year_genre_resume_single_row
    (titles_data_df : list (Titles.row string)) (r : Titles.row string) :
  filter (λ r', resume_key r' = resume_key r) titles_data_df = [r] →
  (resume_key r,
   Resume.Row (Qred <$> Titles.runtimeMinutes r)
     (Qred <$> Titles.averageRating r)
     (Some (default 0 (Titles.numVotes r))))
  ∈ get_year_genre_resume titles_data_df.
Proof.
  intros Hrows. unfold get_year_genre_resume. apply groupby_agg_elem. split.
  - apply list_elem_of_fmap_2.
    assert (Hin : r ∈ filter (λ r', resume_key r' = resume_key r)
                        titles_data_df) by (rewrite Hrows; left).
    by apply list_elem_of_filter in Hin as [_ Hin].
  - rewrite Hrows. unfold RESUME_AGG_FUNCTIONS.
    change (Titles.runtimeMinutes <$> [r]) with [Titles.runtimeMinutes r].
    change (Titles.averageRating <$> [r]) with [Titles.averageRating r].
    change (Titles.numVotes <$> [r]) with [Titles.numVotes r].
    by rewrite !agg_mean_singleton, agg_sum_singleton.
Qed.

Lemma get_year_genre_resume_single_row_witness :
  let r := Titles.Row "t1" 2015 "Drama" (Some (100 # 1)%Q) (Some (15 # 2)%Q)
             (Some 10) in
  let df := [r; Titles.Row "t2" 2015 "Comedy" None None None] in
  filter (λ r', resume_key r' = resume_key r) df = [r]
  ∧ ((2015, "Drama"),
     Resume.Row (Some (100 # 1)%Q) (Some (15 # 2)%Q) (Some 10))
    ∈ get_year_genre_resume df.
Proof.
  intros r df.
  assert (Hrows : filter (λ r', resume_key r' = resume_key r) df = [r])
    by reflexivity.
  split; [exact Hrows|].
  exact (get_year_genre_resume_single_row df r Hrows).
Defined.

(** ** The groups of [get_year_genre_resume] *)

(** X19.  The result of [get_year_genre_resume] has exactly one row for
    each distinct (startYear, genres) pair of its input: its keys are the
    distinct keys of the input, none twice; and the row of a key is the
    aggregation [RESUME_AGG_FUNCTIONS] of exactly the rows of that key,
    taken in their order in the input.  The same holds of
    [groupby(...).agg(f)] for every aggregation [f]. *)
Theorem get_year_genre_resume_groups (titles_data_df : list (Titles.row string)) :
  NoDup (get_year_genre_resume titles_data_df).*1
  ∧ (get_year_genre_resume titles_data_df).*1
      ≡ₚ remove_dups (resume_key <$> titles_data_df)
  ∧ length (get_year_genre_resume titles_data_df)
    = size (list_to_set (C:=gset GroupKey) (resume_key <$> titles_data_df))
  ∧ (∀ k row, (k, row) ∈ get_year_genre_resume titles_data_df ↔
       k ∈ resume_key <$> titles_data_df
       ∧ row = RESUME_AGG_FUNCTIONS
                 (filter (λ r, resume_key r = k) titles_data_df))
  ∧ (∀ {B} (f : list (Titles.row string) → B) k b,
       (k, b) ∈ groupby_agg resume_key GroupKey_le f titles_data_df ↔
         k ∈ resume_key <$> titles_data_df
         ∧ b = f (filter (λ r, resume_key r = k) titles_data_df)).
Proof.
  unfold get_year_genre_resume.
  pose proof (groupby_agg_NoDup resume_key GroupKey_le RESUME_AGG_FUNCTIONS
                titles_data_df) as Hnd.
  assert (Hperm : (groupby_agg resume_key GroupKey_le RESUME_AGG_FUNCTIONS
                     titles_data_df).*1
                  ≡ₚ remove_dups (resume_key <$> titles_data_df)).
  { apply NoDup_Permutation; [done|apply NoDup_remove_dups|].
    intros k. rewrite elem_of_remove_dups, groupby_agg_keys.
    apply groups_of_keys, groupby_groups. }
  split_and!.
  - done.
  - done.
  - rewrite <- (length_fmap fst), Hperm.
    rewrite <- (size_list_to_set (C:=gset GroupKey)
                  (remove_dups (resume_key <$> titles_data_df)))
      by apply NoDup_remove_dups.
    f_equal. apply set_eq. intros k.
    by rewrite !elem_of_list_to_set, elem_of_remove_dups.
  - intros k row.
    apply (groupby_agg_elem resume_key GroupKey_le RESUME_AGG_FUNCTIONS).
  - intros B f k b. apply groupby_agg_elem.
Qed.

(** ** [round] *)

Lemma round_half_even_nearest (q : Q) :
  (Qabs (q - inject_Z (round_half_even q)) <= 1 # 2)%Q
  ∧ ((q - inject_Z (Qfloor q) == 1 # 2)%Q →
     Z.even (round_half_even q) = true).
Proof.
  unfold round_half_even.
  pose proof (Qfloor_le q) as Hlo. pose proof (Qlt_floor q) as Hhi.
  rewrite inject_Z_plus in Hhi. rewrite ?inject_Z_plus.
  change (inject_Z 1) with 1%Q in *.
  destruct (Qcompare (q - inject_Z (Qfloor q)) (1 # 2)) eqn:Hcmp.
  - apply Qeq_alt in Hcmp. split.
    + destruct (Z.even (Qfloor q)); apply Qabs_Qle_condition.
      * split; lra.
      * rewrite ?inject_Z_plus. change (inject_Z 1) with 1%Q. split; lra.
    + intros _. destruct (Z.even (Qfloor q)) eqn:Heven; [done|].
      rewrite Z.even_add, Heven. done.
  - apply Qlt_alt in Hcmp. split.
    + apply Qabs_Qle_condition. split; lra.
    + intros Heq. lra.
  - apply Qgt_alt in Hcmp. split.
    + rewrite ?inject_Z_plus. change (inject_Z 1) with 1%Q.
      apply Qabs_Qle_condition. split; lra.
    + intros Heq. lra.
Qed.

(** [round(x, ndigits)], seen on exact values, is a multiple of
    [10^-ndigits] at distance at most half of [10^-ndigits] from [x],
    the even multiple when [x] is half way between two. *)
Lemma round_nearest (x : Q) (ndigits : nat) :
  let scale := inject_Z (10 ^ Z.of_nat ndigits) in
  (round x ndigits == inject_Z (round_half_even (x * scale)) / scale)%Q
  ∧ (Qabs (x - round x ndigits) <= (1 # 2) / scale)%Q
  ∧ ((x * scale - inject_Z (Qfloor (x * scale)) == 1 # 2)%Q →
     Z.even (round_half_even (x * scale)) = true).
Proof.
  intros scale.
  assert (Hpos : (0 < scale)%Q).
  { unfold scale. change 0%Q with (inject_Z 0). rewrite <- Zlt_Qlt.
    apply Z.pow_pos_nonneg; lia. }
  destruct (round_half_even_nearest (x * scale)) as [Hnear Htie].
  assert (Hround : (round x ndigits
                    == inject_Z (round_half_even (x * scale)) / scale)%Q).
  { unfold round. fold scale. apply Qred_correct. }
  split; [exact Hround|]. split; [|exact Htie].
  rewrite Hround.
  apply Qabs_Qle_condition in Hnear as [Hlo Hhi].
  apply Qabs_Qle_condition.
  assert (Hx : (x - inject_Z (round_half_even (x * scale)) / scale
                == (x * scale - inject_Z (round_half_even (x * scale)))
                   / scale)%Q) by (field; lra).
  rewrite Hx. split.
  - apply Qle_shift_div_l; [done|].
    assert (H1 : (- ((1 # 2) / scale) * scale == - (1 # 2))%Q)
      by (field; lra).
    by rewrite H1.
  - apply Qle_shift_div_r; [done|].
    assert (H1 : ((1 # 2) / scale * scale == 1 # 2)%Q) by (field; lra).
    by rewrite H1.
Qed.
